(** * SplitLayout: the split-pane layout tree of extraterm

    A shallow embedding of [src/extraterm/src/render_process/SplitLayout.ts]
    and the proofs of the properties its specification states.

    How the TypeScript is read:

    - Every JavaScript object that the class compares with [===]/[!==] or
      mutates in place carries its identity in the model: a [Ref], drawn
      from an allocation counter ([heapCounter]) when the object literal is
      evaluated.  [a === b] on two nodes is equality of their [Ref]s, and an
      assignment through a reference ([info.children = ...],
      [splitterInfo.children.splice(...)]) rewrites the node of the tree that
      carries that [Ref] ([modifyNode]).
    - A [TabWidget] element is identified by the number of its DOM id
      ["tabwidget_<n>"], which comes from the module-level
      [tabWidgetIdCounter].  All other DOM elements (tabs, tab contents,
      containers, splitter widgets, accessory elements) are opaque
      [Element]s; arguments of the public methods are non-null references.
    - Code outside the class that produces elements ([document.createElement],
      the pluggable factories) is a function of a logical [clock] which ticks
      at every such call, so that two calls may answer differently.
    - A method either returns, or throws a [TypeError] (a property read on
      [null]/[undefined]); both outcomes carry the state of the object at
      that moment.
    - The DOM side of [update()] (re-parenting of elements) is not modelled;
      its effect on the info tree is. *)

From Stdlib Require Import String List ZArith Lia Bool Arith Permutation.
Import ListNotations.


(** ** Data model *)

Definition Element := nat.
Definition Tab := Element.
Definition TabWidget := nat.
Definition Ref := nat.

Inductive SplitOrientation := VERTICAL | HORIZONTAL.

Definition orientation_eqb (a b : SplitOrientation) : bool :=
  match a, b with
  | VERTICAL, VERTICAL | HORIZONTAL, HORIZONTAL => true
  | _, _ => false
  end.

Record TabInfo := mkTabInfo {
  ti_ref : Ref;
  tab : Tab;
  content : Element;
  container : option Element
}.

Record TabWidgetInfoNode := mkTabWidgetInfoNode {
  tw_ref : Ref;
  tw_children : list TabInfo;
  tabWidget : TabWidget;
  emptyTab : option Tab;
  emptyTabContent : option Element;
  emptyContainer : option Element;
  leftSpaceDefaultElement : option Element;
  rightSpaceDefaultElement : option Element
}.

Unset Elimination Schemes.
Inductive RootInfoNode :=
| NSplitter (s_ref : Ref) (s_children : list RootInfoNode)
            (splitter : option Element) (orientation : SplitOrientation)
| NTabWidget (info : TabWidgetInfoNode).
Set Elimination Schemes.

Inductive InfoNode :=
| INode (n : RootInfoNode)
| ITab (t : TabInfo).

Inductive RelativePosition := TOP_LEFT | TOP_RIGHT | TOP_WIDE | OTHER.

Definition ElementFactory := nat -> option Element -> Element.
Definition TabContentContainerElementFactory :=
  nat -> TabWidget -> Tab -> Element -> Element.

Record SplitLayout := mkSplitLayout {
  _rootInfoNode : RootInfoNode;
  _tabContainerFactory : TabContentContainerElementFactory;
  _emptySplitFactory : option ElementFactory;
  _topLeftElement : option Element;
  _topRightElement : option Element;
  _leftSpaceDefaultElementFactory : option ElementFactory;
  _rightSpaceDefaultElementFactory : option ElementFactory;
  tabWidgetIdCounter : nat;
  tabIdCounter : nat;
  heapCounter : Ref;
  clock : nat;
  createElement : nat -> Element;
  severeLog : list string
}.

(** Outcome of a method call. *)
Inductive Outcome (A : Type) :=
| Returned (v : A) (s : SplitLayout)
| Threw (s : SplitLayout)
| NullSlot.
Arguments Returned {A} v s.
Arguments Threw {A} s.
Arguments NullSlot {A}.

(** ** Structural induction on the tree *)

Section RootInfoNode_induction.
Variable P : RootInfoNode -> Prop.
Hypothesis Htab : forall info, P (NTabWidget info).
Hypothesis Hsplit : forall r kids sp o,
  Forall P kids -> P (NSplitter r kids sp o).

Fixpoint RootInfoNode_ind (n : RootInfoNode) : P n :=
  match n with
  | NTabWidget info => Htab info
  | NSplitter r kids sp o =>
      Hsplit r kids sp o
        ((fix go (l : list RootInfoNode) : Forall P l :=
            match l with
            | [] => Forall_nil P
            | k :: l' => Forall_cons k (RootInfoNode_ind k) (go l')
            end) kids)
  end.
End RootInfoNode_induction.

(** ** JavaScript array helpers *)

(** A [for] loop over an array that returns the first non-null result. *)
Definition firstSome {A B : Type} (f : A -> option B) : list A -> option B :=
  fix go (l : list A) : option B :=
    match l with
    | [] => None
    | x :: rest => match f x with
                   | Some y => Some y
                   | None => go rest
                   end
    end.

(** Normalisation of a relative index as [slice] and [splice] do it. *)
Definition relIndex (len : nat) (i : Z) : nat :=
  Z.to_nat (if (i <? 0)%Z then Z.max (Z.of_nat len + i) 0
            else Z.min i (Z.of_nat len)).

(** [l.slice(from)] and [l.slice(from, to)]. *)
Definition sliceFrom {A : Type} (l : list A) (from : Z) : list A :=
  skipn (relIndex (length l) from) l.

Definition slice {A : Type} (l : list A) (from to : Z) : list A :=
  skipn (relIndex (length l) from) (firstn (relIndex (length l) to) l).

(** [l.splice(start, deleteCount, item)] (the array after the call). *)
Definition splice {A : Type} (l : list A) (start : Z) (deleteCount : nat)
    (item : A) : list A :=
  let s := relIndex (length l) start in
  firstn s l ++ item :: skipn (s + deleteCount) l.

Definition nodeRef (n : RootInfoNode) : Ref :=
  match n with
  | NSplitter r _ _ _ => r
  | NTabWidget info => tw_ref info
  end.

(** [array.indexOf(item)] on an array of nodes: identity comparison. *)
Fixpoint indexOfRef (l : list RootInfoNode) (r : Ref) : Z :=
  match l with
  | [] => (-1)%Z
  | x :: rest =>
      if nodeRef x =? r then 0%Z
      else let i := indexOfRef rest r in
           if (i <? 0)%Z then (-1)%Z else (i + 1)%Z
  end.

(** [array[i]] for a number [i]: [undefined] outside the array. *)
Definition at_ {A : Type} (l : list A) (i : Z) : option A :=
  if (i <? 0)%Z then None else nth_error l (Z.to_nat i).

(** ** Tree searches (the module-level functions) *)

Fixpoint findTabWidgetInfoByTabWidget (root : RootInfoNode) (w : TabWidget)
    : option TabWidgetInfoNode :=
  match root with
  | NSplitter _ kids _ _ =>
      firstSome (fun kid => findTabWidgetInfoByTabWidget kid w) kids
  | NTabWidget info => if tabWidget info =? w then Some info else None
  end.

Fixpoint firstTabWidgetInfo (infoNode : RootInfoNode)
    : option TabWidgetInfoNode :=
  match infoNode with
  | NTabWidget info => Some info
  | NSplitter _ kids _ _ => firstSome firstTabWidgetInfo kids
  end.

Definition firstTabWidget (infoNode : RootInfoNode) : option TabWidget :=
  option_map tabWidget (firstTabWidgetInfo infoNode).

Definition isElement (o : option Element) (e : Element) : bool :=
  match o with
  | Some x => x =? e
  | None => false
  end.

Fixpoint findTabWidgetInfoByTabContent (infoNode : RootInfoNode)
    (tabContent : Element) : option (TabWidgetInfoNode * option TabInfo) :=
  match infoNode with
  | NSplitter _ kids _ _ =>
      firstSome (fun kid => findTabWidgetInfoByTabContent kid tabContent) kids
  | NTabWidget info =>
      if isElement (emptyTabContent info) tabContent then Some (info, None)
      else firstSome (fun tabInfo =>
                        if content tabInfo =? tabContent
                        then Some (info, Some tabInfo) else None)
                     (tw_children info)
  end.

Fixpoint findTabWidgetInfoByTab (infoNode : RootInfoNode) (t : Tab)
    : option (TabWidgetInfoNode * option TabInfo) :=
  match infoNode with
  | NSplitter _ kids _ _ =>
      firstSome (fun kid => findTabWidgetInfoByTab kid t) kids
  | NTabWidget info =>
      match tw_children info with
      | [] => if isElement (emptyTab info) t then Some (info, None) else None
      | _ => firstSome (fun tabInfo =>
                          if tab tabInfo =? t
                          then Some (info, Some tabInfo) else None)
                       (tw_children info)
      end
  end.

Fixpoint findPathToTabContent (infoNode : RootInfoNode) (tabContent : Element)
    : option (list InfoNode) :=
  match infoNode with
  | NSplitter _ kids _ _ =>
      firstSome (fun kid =>
                   match findPathToTabContent kid tabContent with
                   | Some path => Some (INode infoNode :: path)
                   | None => None
                   end) kids
  | NTabWidget info =>
      if isElement (emptyTabContent info) tabContent
      then Some [INode infoNode]
      else firstSome (fun kid =>
                        if content kid =? tabContent
                        then Some [INode infoNode; ITab kid] else None)
                     (tw_children info)
  end.

Fixpoint findPathToTabWidget (infoNode : RootInfoNode) (w : TabWidget)
    : option (list InfoNode) :=
  match infoNode with
  | NSplitter _ kids _ _ =>
      firstSome (fun kid =>
                   match findPathToTabWidget kid w with
                   | Some path => Some (INode infoNode :: path)
                   | None => None
                   end) kids
  | NTabWidget info =>
      if tabWidget info =? w then Some [INode infoNode] else None
  end.

Fixpoint getAllTabContents (infoNode : RootInfoNode) : list Element :=
  match infoNode with
  | NSplitter _ kids _ _ => concat (map getAllTabContents kids)
  | NTabWidget info => map content (tw_children info)
  end.

Fixpoint getAllTabWidgets (infoNode : RootInfoNode) : list TabWidget :=
  match infoNode with
  | NSplitter _ kids _ _ => concat (map getAllTabWidgets kids)
  | NTabWidget info => [tabWidget info]
  end.

Definition swapArrayItems (array : list RootInfoNode)
    (item1 item2 : RootInfoNode) : list RootInfoNode :=
  map (fun item =>
         if nodeRef item =? nodeRef item1 then item2
         else if nodeRef item =? nodeRef item2 then item1
         else item) array.

(** [array.indexOf(item)] on an array of elements. *)
Fixpoint indexOfElement (l : list Element) (e : Element) : Z :=
  match l with
  | [] => (-1)%Z
  | x :: rest =>
      if x =? e then 0%Z
      else let i := indexOfElement rest e in
           if (i <? 0)%Z then (-1)%Z else (i + 1)%Z
  end.

(** ** In-place mutation of the object behind a reference *)

Fixpoint modifyNode (r : Ref) (f : RootInfoNode -> RootInfoNode)
    (n : RootInfoNode) : RootInfoNode :=
  if nodeRef n =? r then f n
  else match n with
       | NSplitter r' kids sp o => NSplitter r' (map (modifyNode r f) kids) sp o
       | NTabWidget _ => n
       end.

Definition setTabs (info : TabWidgetInfoNode) (l : list TabInfo)
    : TabWidgetInfoNode :=
  mkTabWidgetInfoNode (tw_ref info) l (tabWidget info) (emptyTab info)
    (emptyTabContent info) (emptyContainer info)
    (leftSpaceDefaultElement info) (rightSpaceDefaultElement info).

(** [info.children = f(info.children)] on a tab widget node. *)
Definition withTabs (f : list TabInfo -> list TabInfo) (n : RootInfoNode)
    : RootInfoNode :=
  match n with
  | NTabWidget info => NTabWidget (setTabs info (f (tw_children info)))
  | NSplitter _ _ _ _ => n
  end.

(** [splitterInfo.children = f(splitterInfo.children)] on a splitter node. *)
Definition withKids (f : list RootInfoNode -> list RootInfoNode)
    (n : RootInfoNode) : RootInfoNode :=
  match n with
  | NSplitter r kids sp o => NSplitter r (f kids) sp o
  | NTabWidget _ => n
  end.

(** ** State plumbing *)

Definition setRoot (s : SplitLayout) (root : RootInfoNode) : SplitLayout :=
  mkSplitLayout root (_tabContainerFactory s) (_emptySplitFactory s)
    (_topLeftElement s) (_topRightElement s)
    (_leftSpaceDefaultElementFactory s) (_rightSpaceDefaultElementFactory s)
    (tabWidgetIdCounter s) (tabIdCounter s) (heapCounter s) (clock s)
    (createElement s) (severeLog s).

(** [this._log.severe(msg, ...)]. *)
Definition severe (s : SplitLayout) (msg : string) : SplitLayout :=
  mkSplitLayout (_rootInfoNode s) (_tabContainerFactory s) (_emptySplitFactory s)
    (_topLeftElement s) (_topRightElement s)
    (_leftSpaceDefaultElementFactory s) (_rightSpaceDefaultElementFactory s)
    (tabWidgetIdCounter s) (tabIdCounter s) (heapCounter s) (clock s)
    (createElement s) (severeLog s ++ [msg]).

(** Evaluation of an object literal: a fresh reference. *)
Definition alloc (s : SplitLayout) : Ref * SplitLayout :=
  (heapCounter s,
   mkSplitLayout (_rootInfoNode s) (_tabContainerFactory s) (_emptySplitFactory s)
     (_topLeftElement s) (_topRightElement s)
     (_leftSpaceDefaultElementFactory s) (_rightSpaceDefaultElementFactory s)
     (tabWidgetIdCounter s) (tabIdCounter s) (S (heapCounter s)) (clock s)
     (createElement s) (severeLog s)).

Definition _nextTabWidgetId (s : SplitLayout) : TabWidget * SplitLayout :=
  (S (tabWidgetIdCounter s),
   mkSplitLayout (_rootInfoNode s) (_tabContainerFactory s) (_emptySplitFactory s)
     (_topLeftElement s) (_topRightElement s)
     (_leftSpaceDefaultElementFactory s) (_rightSpaceDefaultElementFactory s)
     (S (tabWidgetIdCounter s)) (tabIdCounter s) (heapCounter s) (clock s)
     (createElement s) (severeLog s)).

Definition _nextTabId (s : SplitLayout) : nat * SplitLayout :=
  (S (tabIdCounter s),
   mkSplitLayout (_rootInfoNode s) (_tabContainerFactory s) (_emptySplitFactory s)
     (_topLeftElement s) (_topRightElement s)
     (_leftSpaceDefaultElementFactory s) (_rightSpaceDefaultElementFactory s)
     (tabWidgetIdCounter s) (S (tabIdCounter s)) (heapCounter s) (clock s)
     (createElement s) (severeLog s)).

(** One call into code outside the class. *)
Definition tick (s : SplitLayout) : SplitLayout :=
  mkSplitLayout (_rootInfoNode s) (_tabContainerFactory s) (_emptySplitFactory s)
    (_topLeftElement s) (_topRightElement s)
    (_leftSpaceDefaultElementFactory s) (_rightSpaceDefaultElementFactory s)
    (tabWidgetIdCounter s) (tabIdCounter s) (heapCounter s) (S (clock s))
    (createElement s) (severeLog s).

(** ** The class *)

Definition _createTabWidgetInfo (s : SplitLayout) (children : list TabInfo)
    : TabWidgetInfoNode * SplitLayout :=
  let '(id, s1) := _nextTabWidgetId s in
  let '(r, s2) := alloc s1 in
  (mkTabWidgetInfoNode r children id None None None None None, s2).

(** [new SplitLayout()], given the module-level counters and the document. *)
Definition constructor (tabWidgetIdCounter0 tabIdCounter0 : nat)
    (document : nat -> Element) : SplitLayout :=
  let s0 := mkSplitLayout
              (NTabWidget (mkTabWidgetInfoNode 0 [] 0 None None None None None))
              (fun k _ _ _ => document k) None None None None None
              tabWidgetIdCounter0 tabIdCounter0 0 0 document [] in
  let '(info, s1) := _createTabWidgetInfo s0 [] in
  setRoot s1 (NTabWidget info).

Definition setEmptySplitElementFactory (s : SplitLayout)
    (factory : option ElementFactory) : SplitLayout :=
  mkSplitLayout (_rootInfoNode s) (_tabContainerFactory s) factory
    (_topLeftElement s) (_topRightElement s)
    (_leftSpaceDefaultElementFactory s) (_rightSpaceDefaultElementFactory s)
    (tabWidgetIdCounter s) (tabIdCounter s) (heapCounter s) (clock s)
    (createElement s) (severeLog s).

Definition setTabContainerFactory (s : SplitLayout)
    (factory : TabContentContainerElementFactory) : SplitLayout :=
  mkSplitLayout (_rootInfoNode s) factory (_emptySplitFactory s)
    (_topLeftElement s) (_topRightElement s)
    (_leftSpaceDefaultElementFactory s) (_rightSpaceDefaultElementFactory s)
    (tabWidgetIdCounter s) (tabIdCounter s) (heapCounter s) (clock s)
    (createElement s) (severeLog s).

Definition setTopLeftElement (s : SplitLayout) (el : option Element)
    : SplitLayout :=
  mkSplitLayout (_rootInfoNode s) (_tabContainerFactory s) (_emptySplitFactory s)
    el (_topRightElement s)
    (_leftSpaceDefaultElementFactory s) (_rightSpaceDefaultElementFactory s)
    (tabWidgetIdCounter s) (tabIdCounter s) (heapCounter s) (clock s)
    (createElement s) (severeLog s).

Definition setTopRightElement (s : SplitLayout) (el : option Element)
    : SplitLayout :=
  mkSplitLayout (_rootInfoNode s) (_tabContainerFactory s) (_emptySplitFactory s)
    (_topLeftElement s) el
    (_leftSpaceDefaultElementFactory s) (_rightSpaceDefaultElementFactory s)
    (tabWidgetIdCounter s) (tabIdCounter s) (heapCounter s) (clock s)
    (createElement s) (severeLog s).

Definition setLeftSpaceDefaultElementFactory (s : SplitLayout)
    (el : option ElementFactory) : SplitLayout :=
  mkSplitLayout (_rootInfoNode s) (_tabContainerFactory s) (_emptySplitFactory s)
    (_topLeftElement s) (_topRightElement s)
    el (_rightSpaceDefaultElementFactory s)
    (tabWidgetIdCounter s) (tabIdCounter s) (heapCounter s) (clock s)
    (createElement s) (severeLog s).

Definition setRightSpaceDefaultElementFactory (s : SplitLayout)
    (el : option ElementFactory) : SplitLayout :=
  mkSplitLayout (_rootInfoNode s) (_tabContainerFactory s) (_emptySplitFactory s)
    (_topLeftElement s) (_topRightElement s)
    (_leftSpaceDefaultElementFactory s) el
    (tabWidgetIdCounter s) (tabIdCounter s) (heapCounter s) (clock s)
    (createElement s) (severeLog s).

Definition appendTab (s : SplitLayout) (w : TabWidget) (t : Tab)
    (tabContent : Element) : Outcome unit :=
  match findTabWidgetInfoByTabWidget (_rootInfoNode s) w with
  | None => Returned tt (severe s "Unable to find the info for TabWidget ")
  | Some info =>
      let '(r, s1) := alloc s in
      Returned tt
        (setRoot s1
           (modifyNode (tw_ref info)
              (withTabs (fun l => l ++ [mkTabInfo r t tabContent None]))
              (_rootInfoNode s1)))
  end.

Definition isSplit (s : SplitLayout) : bool :=
  match _rootInfoNode s with
  | NSplitter _ _ _ _ => true
  | NTabWidget _ => false
  end.

(** [array.filter(kid => kid !== tabInfo)]. *)
Definition dropTab (tabInfo : TabInfo) (l : list TabInfo) : list TabInfo :=
  filter (fun kid => negb (ti_ref kid =? ti_ref tabInfo)) l.

(** [array.filter(kid => kid !== node)]. *)
Definition dropNode (r : Ref) (l : list RootInfoNode) : list RootInfoNode :=
  filter (fun kid => negb (nodeRef kid =? r)) l.

Definition removeTabContent (s : SplitLayout) (tabContent : Element)
    : Outcome unit :=
  match findTabWidgetInfoByTabContent (_rootInfoNode s) tabContent with
  | None => Returned tt (severe s "Unable to find the info for TabWidget ")
  | Some (tabWidgetInfo, tabInfo) =>
      Returned tt
        (setRoot s
           (modifyNode (tw_ref tabWidgetInfo)
              (withTabs (fun l => match tabInfo with
                                  | Some ti => dropTab ti l
                                  | None => l
                                  end))
              (_rootInfoNode s)))
  end.

Definition getTabContentsByTabWidget (s : SplitLayout) (w : TabWidget)
    : Outcome (option (list Element)) :=
  match findTabWidgetInfoByTabWidget (_rootInfoNode s) w with
  | None => Returned None (severe s "Unable to find the info for TabWidget ")
  | Some info =>
      match tw_children info with
      | [] => Returned (Some match emptyTabContent info with
                             | Some e => [e]
                             | None => []
                             end) s
      | _ => Returned (Some (map content (tw_children info))) s
      end
  end.

Definition getTabByTabContent (s : SplitLayout) (tabContent : Element)
    : Outcome (option Tab) :=
  match findTabWidgetInfoByTabContent (_rootInfoNode s) tabContent with
  | None => Returned None (severe s "Unable to find the info for tab content ")
  | Some (_, Some tabInfo) => Returned (Some (tab tabInfo)) s
  | Some (_, None) => Threw s
  end.

Definition getTabWidgetByTabContent (s : SplitLayout) (tabContent : Element)
    : Outcome (option TabWidget) :=
  match findTabWidgetInfoByTabContent (_rootInfoNode s) tabContent with
  | None => Returned None (severe s "Unable to find the info for tab content ")
  | Some (tabWidgetInfo, _) => Returned (Some (tabWidget tabWidgetInfo)) s
  end.

Definition getTabContentByTab (s : SplitLayout) (t : Tab)
    : Outcome (option Element) :=
  match findTabWidgetInfoByTab (_rootInfoNode s) t with
  | None => Returned None (severe s "Unable to find the info for Tab ")
  | Some (_, Some tabInfo) => Returned (Some (content tabInfo)) s
  | Some (tabWidgetInfo, None) => Returned (emptyTabContent tabWidgetInfo) s
  end.

Definition getEmptyContentByTabWidget (s : SplitLayout) (w : TabWidget)
    : Outcome (option Element) :=
  match findTabWidgetInfoByTabWidget (_rootInfoNode s) w with
  | None => Returned None (severe s "Unable to find the info for TabWidget ")
  | Some info =>
      match tw_children info with
      | [] => Returned (emptyTabContent info) s
      | _ => Returned None s
      end
  end.

Definition _splitAfterTabWidgetIntoSplitter (s : SplitLayout)
    (tabWidgetInfo : TabWidgetInfoNode) (orientation : SplitOrientation)
    : RootInfoNode * SplitLayout :=
  let '(newTabWidgetInfo, s1) := _createTabWidgetInfo s [] in
  let '(r, s2) := alloc s1 in
  (NSplitter r [NTabWidget tabWidgetInfo; NTabWidget newTabWidgetInfo] None
     orientation, s2).

(** [(<TabWidgetInfoNode> node.children[1]).tabWidget]; [None] stands for
    the [TypeError] of reading through [undefined]. *)
Definition secondChildTabWidget (n : RootInfoNode) : option TabWidget :=
  match n with
  | NSplitter _ (_ :: NTabWidget info :: _) _ _ => Some (tabWidget info)
  | _ => None
  end.

Definition returnSecondChild (newSplitter : RootInfoNode) (s : SplitLayout)
    : Outcome (option TabWidget) :=
  match secondChildTabWidget newSplitter with
  | Some w => Returned (Some w) s
  | None => Threw s
  end.

Definition splitAfterTabWidget (s : SplitLayout) (w : TabWidget)
    (orientation : SplitOrientation) : Outcome (option TabWidget) :=
  match findPathToTabWidget (_rootInfoNode s) w with
  | None =>
      Returned None (severe s "Unable to find the info for tab widget ")
  | Some path =>
      match rev path with
      | [] => Threw s
      | [INode (NTabWidget tabWidgetInfo)] =>
          let '(newRoot, s1) :=
            _splitAfterTabWidgetIntoSplitter s tabWidgetInfo orientation in
          returnSecondChild newRoot (setRoot s1 newRoot)
      | [_] => Returned None s
      | INode (NTabWidget tabWidgetInfo)
          :: INode (NSplitter sr _ _ so) :: _ =>
          if orientation_eqb so orientation then
            let '(newTabWidgetInfo, s1) := _createTabWidgetInfo s [] in
            Returned (Some (tabWidget newTabWidgetInfo))
              (setRoot s1
                 (modifyNode sr
                    (withKids (fun kids =>
                       splice kids
                         (indexOfRef kids (tw_ref tabWidgetInfo) + 1) 0
                         (NTabWidget newTabWidgetInfo)))
                    (_rootInfoNode s1)))
          else
            let '(newSplitter, s1) :=
              _splitAfterTabWidgetIntoSplitter s tabWidgetInfo orientation in
            returnSecondChild newSplitter
              (setRoot s1
                 (modifyNode sr
                    (withKids (fun kids =>
                       splice kids (indexOfRef kids (tw_ref tabWidgetInfo)) 1
                         newSplitter))
                    (_rootInfoNode s1)))
      | _ :: _ :: _ => Returned None s
      end
  end.

(** The body of [splitBeforeTabWidget] after its call of
    [splitAfterTabWidget], which returned [newTabWidget]. *)
Definition swapWithNewTabWidget (s1 : SplitLayout) (w : TabWidget)
    (newTabWidget : option TabWidget) : Outcome (option TabWidget) :=
  match match newTabWidget with
        | Some nw => findPathToTabWidget (_rootInfoNode s1) nw
        | None => None
        end with
  | None => Threw s1
  | Some newTabWidgetPath =>
      match rev newTabWidgetPath with
      | [] | [_] => Threw s1
      | INode (NTabWidget newTabWidgetInfo)
          :: INode (NSplitter sr _ _ _ as splitterInfo) :: _ =>
          match findPathToTabWidget splitterInfo w with
          | None => Threw s1
          | Some tabWidgetPath =>
              match rev tabWidgetPath with
              | [] => Threw s1
              | INode (NTabWidget tabWidgetInfo) :: _ =>
                  Returned newTabWidget
                    (setRoot s1
                       (modifyNode sr
                          (withKids (fun kids =>
                             swapArrayItems kids
                               (NTabWidget newTabWidgetInfo)
                               (NTabWidget tabWidgetInfo)))
                          (_rootInfoNode s1)))
              | _ :: _ => Returned newTabWidget s1
              end
          end
      | _ :: _ :: _ => Returned newTabWidget s1
      end
  end.

Definition splitBeforeTabWidget (s : SplitLayout) (w : TabWidget)
    (orientation : SplitOrientation) : Outcome (option TabWidget) :=
  match splitAfterTabWidget s w orientation with
  | Returned newTabWidget s1 => swapWithNewTabWidget s1 w newTabWidget
  | Threw s1 => Threw s1
  | NullSlot => NullSlot
  end.

(** Returns the pair of tab widget nodes; the first one is [tabWidgetInfo]
    itself, mutated in place, so the tree of the returned state holds it. *)
Definition _splitTabWidgetAtTabContent (s : SplitLayout)
    (tabWidgetInfo : TabWidgetInfoNode) (tabContent : Element)
    : TabWidgetInfoNode * TabWidgetInfoNode * SplitLayout :=
  let splitIndex :=
    (indexOfElement (map content (tw_children tabWidgetInfo)) tabContent + 1)%Z in
  let '(newTabWidgetInfo, s1) :=
    _createTabWidgetInfo s (sliceFrom (tw_children tabWidgetInfo) splitIndex) in
  let shrunk :=
    setTabs tabWidgetInfo (slice (tw_children tabWidgetInfo) 0 splitIndex) in
  (shrunk, newTabWidgetInfo,
   setRoot s1
     (modifyNode (tw_ref tabWidgetInfo) (fun _ => NTabWidget shrunk)
        (_rootInfoNode s1))).

Definition _splitTabWidgetAtTabContentIntoSplitter (s : SplitLayout)
    (tabWidgetInfo : TabWidgetInfoNode) (tabContent : Element)
    (orientation : SplitOrientation) : RootInfoNode * SplitLayout :=
  let '(shrunk, newTabWidgetInfo, s1) :=
    _splitTabWidgetAtTabContent s tabWidgetInfo tabContent in
  let '(r, s2) := alloc s1 in
  (NSplitter r [NTabWidget shrunk; NTabWidget newTabWidgetInfo] None
     orientation, s2).

Definition splitAfterTabContent (s : SplitLayout) (tabContent : Element)
    (orientation : SplitOrientation) : Outcome (option TabWidget) :=
  match findPathToTabContent (_rootInfoNode s) tabContent with
  | None =>
      Returned None (severe s "Unable to find the info for tab contents ")
  | Some path =>
      let pathLen := List.length path in
      match (if pathLen =? 1 then
               match path with
               | [INode (NTabWidget tabWidgetInfo)] =>
                   Some (splitAfterTabWidget s (tabWidget tabWidgetInfo)
                           orientation)
               | _ => None
               end
             else None) with
      | Some result => result
      | None =>
          if pathLen =? 2 then
            match path with
            | [INode (NTabWidget tabWidgetInfo); ITab _] =>
                let '(newSplitterNode, s1) :=
                  _splitTabWidgetAtTabContentIntoSplitter s tabWidgetInfo
                    tabContent orientation in
                returnSecondChild newSplitterNode (setRoot s1 newSplitterNode)
            | [INode (NSplitter _ _ _ _); INode (NTabWidget tabWidgetInfo)] =>
                splitAfterTabWidget s (tabWidget tabWidgetInfo) orientation
            | _ => Returned None s
            end
          else if 3 <=? pathLen then
            match rev path with
            | ITab _ :: INode (NTabWidget tabWidgetInfo)
                :: INode (NSplitter sr _ _ so) :: _ =>
                if orientation_eqb so orientation then
                  let '(_, newTabWidgetInfo, s1) :=
                    _splitTabWidgetAtTabContent s tabWidgetInfo tabContent in
                  Returned (Some (tabWidget newTabWidgetInfo))
                    (setRoot s1
                       (modifyNode sr
                          (withKids (fun kids =>
                             splice kids
                               (indexOfRef kids (tw_ref tabWidgetInfo) + 1) 0
                               (NTabWidget newTabWidgetInfo)))
                          (_rootInfoNode s1)))
                else
                  let '(newSplitterNode, s1) :=
                    _splitTabWidgetAtTabContentIntoSplitter s tabWidgetInfo
                      tabContent orientation in
                  returnSecondChild newSplitterNode
                    (setRoot s1
                       (modifyNode sr
                          (withKids (fun kids =>
                             splice kids
                               (indexOfRef kids (tw_ref tabWidgetInfo)) 1
                               newSplitterNode))
                          (_rootInfoNode s1)))
            | ITab _ :: _ => Returned None s
            | INode (NTabWidget tabWidgetInfo)
                :: INode (NSplitter _ _ _ _) :: _ =>
                splitAfterTabWidget s (tabWidget tabWidgetInfo) orientation
            | _ => Returned None s
            end
          else Returned None s
      end
  end.

Definition moveTabToTabWidget (s : SplitLayout) (tabElement : Tab)
    (targetTabWidget : TabWidget) (tabIndex : Z) : Outcome unit :=
  match findTabWidgetInfoByTab (_rootInfoNode s) tabElement with
  | None => Threw s
  | Some (sourceTabWidgetInfo, tabInfo) =>
      match findTabWidgetInfoByTabWidget (_rootInfoNode s) targetTabWidget with
      | None => Threw s
      | Some targetTabWidgetInfo =>
          match tabInfo with
          | None => NullSlot
          | Some tabInfo =>
              let tabIndex :=
                Z.min tabIndex
                  (Z.of_nat (List.length (tw_children targetTabWidgetInfo))) in
              if tw_ref sourceTabWidgetInfo =? tw_ref targetTabWidgetInfo then
                Returned tt
                  (setRoot s
                     (modifyNode (tw_ref sourceTabWidgetInfo)
                        (withTabs (fun l =>
                           dropTab tabInfo (slice l 0 tabIndex)
                             ++ tabInfo :: dropTab tabInfo (sliceFrom l tabIndex)))
                        (_rootInfoNode s)))
              else
                let root1 :=
                  modifyNode (tw_ref sourceTabWidgetInfo)
                    (withTabs (dropTab tabInfo)) (_rootInfoNode s) in
                Returned tt
                  (setRoot s
                     (modifyNode (tw_ref targetTabWidgetInfo)
                        (withTabs (fun l =>
                           slice l 0 tabIndex
                             ++ tabInfo :: sliceFrom l tabIndex))
                        root1))
          end
      end
  end.

(** The loop of [_removeRedundantSplittersFromParent] replaces a single-child
    splitter [kid] at position [i] by [kid.children[0]] and then recurses on
    [kid], which by then is detached from the tree.  The recursive call still
    reaches [kid.children[0]], which is the object now stored at position [i],
    and processes it in place; whatever it splices into [kid.children] itself
    is lost with [kid].  So position [i] ends up holding [kid.children[0]]
    after its own pass, in the single-child case, and [kid] after its pass
    otherwise ([collapseKid]).  The value of the function is the node after
    the call. *)
Fixpoint _removeRedundantSplittersFromParent (nodeInfo : RootInfoNode)
    : RootInfoNode :=
  match nodeInfo with
  | NSplitter r kids sp o =>
      NSplitter r
        (map (fun kid =>
                match kid with
                | NSplitter _ [only] _ _ =>
                    _removeRedundantSplittersFromParent only
                | NSplitter _ _ _ _ =>
                    _removeRedundantSplittersFromParent kid
                | NTabWidget _ => kid
                end) kids) sp o
  | NTabWidget _ => nodeInfo
  end.

(** One iteration of that loop: what position [i] holds afterwards. *)
Definition collapseKid (kid : RootInfoNode) : RootInfoNode :=
  match kid with
  | NSplitter _ [only] _ _ => _removeRedundantSplittersFromParent only
  | NSplitter _ _ _ _ => _removeRedundantSplittersFromParent kid
  | NTabWidget _ => kid
  end.

Definition _removeRedundantSplitters (s : SplitLayout) : SplitLayout :=
  match _rootInfoNode s with
  | NSplitter _ [only] _ _ => setRoot s only
  | NSplitter _ _ _ _ =>
      setRoot s (_removeRedundantSplittersFromParent (_rootInfoNode s))
  | NTabWidget _ => s
  end.

Definition _closeTabWidgetSplitterSplit (s : SplitLayout) (parentRef : Ref)
    (tabWidgetInfo : TabWidgetInfoNode) (splitterInfo : RootInfoNode)
    : Outcome unit :=
  match firstTabWidgetInfo splitterInfo with
  | None => Threw s
  | Some destinationTabWidgetInfo =>
      let root1 :=
        modifyNode (tw_ref destinationTabWidgetInfo)
          (withTabs (fun l => l ++ tw_children tabWidgetInfo))
          (_rootInfoNode s) in
      let root2 :=
        modifyNode parentRef (withKids (dropNode (tw_ref tabWidgetInfo)))
          root1 in
      Returned tt (_removeRedundantSplitters (setRoot s root2))
  end.

(** The merge step of [closeSplitAtTabContent], once the tab widget node and
    its parent splitter have been read off the path. *)
Definition closeSplitAt (s : SplitLayout) (sr : Ref)
    (kids : list RootInfoNode) (tabWidgetInfo : TabWidgetInfoNode)
    : Outcome unit :=
  let len := Z.of_nat (List.length kids) in
  let index0 := indexOfRef kids (tw_ref tabWidgetInfo) in
  let index := if (index0 =? len - 1)%Z then (len - 2)%Z else index0 in
  match at_ kids index, at_ kids (index + 1) with
  | None, _ => Threw s
  | Some _, None => Threw s
  | Some (NTabWidget leftInfo), Some (NTabWidget rightInfo) =>
      let root1 :=
        modifyNode (tw_ref leftInfo)
          (withTabs (fun l => l ++ tw_children rightInfo))
          (_rootInfoNode s) in
      let root2 :=
        modifyNode sr (withKids (dropNode (tw_ref rightInfo))) root1 in
      Returned tt (_removeRedundantSplitters (setRoot s root2))
  | Some (NTabWidget leftInfo), Some (NSplitter _ _ _ _ as rightInfo) =>
      _closeTabWidgetSplitterSplit s sr leftInfo rightInfo
  | Some (NSplitter _ _ _ _ as leftInfo), Some (NTabWidget rightInfo) =>
      _closeTabWidgetSplitterSplit s sr rightInfo leftInfo
  | Some (NSplitter _ _ _ _), Some (NSplitter _ _ _ _) => Returned tt s
  end.

(** Paths of [findPathToTabContent] are splitters, then a tab widget node,
    then possibly a tab info ([findPathToTabContent_shape]); the last case
    below stands for the other shapes, which the unchecked casts of the
    source would let through. *)
Definition closeSplitAtTabContent (s : SplitLayout) (tabContent : Element)
    : Outcome unit :=
  match findPathToTabContent (_rootInfoNode s) tabContent with
  | None =>
      Returned tt (severe s "Unable to find the info for tab contents ")
  | Some path =>
      match rev path with
      | [] | [_] => Returned tt s
      | [ITab _; INode (NTabWidget _)] => Threw s
      | ITab _ :: INode (NTabWidget tabWidgetInfo)
          :: INode (NSplitter sr kids _ _) :: _ =>
          closeSplitAt s sr kids tabWidgetInfo
      | INode (NTabWidget tabWidgetInfo)
          :: INode (NSplitter sr kids _ _) :: _ =>
          closeSplitAt s sr kids tabWidgetInfo
      | INode (NSplitter _ _ _ _) :: _ :: _ => Returned tt s
      | _ => Threw s
      end
  end.

(** ** Reconciliation: the effect of [update()] on the info tree *)

Definition _computeNewPositionForVerticalSplits (oldPosition : RelativePosition)
    (index length : nat) : RelativePosition :=
  match oldPosition with
  | TOP_WIDE =>
      if length =? 1 then TOP_WIDE
      else if index =? 0 then TOP_LEFT
      else if index =? length - 1 then TOP_RIGHT
      else OTHER
  | TOP_LEFT => if index =? 0 then TOP_LEFT else OTHER
  | TOP_RIGHT => if index =? length - 1 then TOP_RIGHT else OTHER
  | OTHER => OTHER
  end.

Definition _computeNewPositionForHorizontalSplits
    (oldPosition : RelativePosition) (index length : nat) : RelativePosition :=
  match oldPosition with
  | TOP_WIDE =>
      if length =? 1 then TOP_WIDE
      else if index =? 0 then TOP_WIDE
      else OTHER
  | TOP_LEFT => if index =? 0 then TOP_LEFT else OTHER
  | TOP_RIGHT => if index =? 0 then TOP_RIGHT else OTHER
  | OTHER => OTHER
  end.

Definition isSome {A : Type} (o : option A) : bool :=
  match o with
  | Some _ => true
  | None => false
  end.

(** The default accessory element of one side: created once per node. *)
Definition spaceDefault (s : SplitLayout) (useGlobal : bool)
    (factory : option ElementFactory) (current : option Element)
    : option Element * SplitLayout :=
  if useGlobal then (current, s)
  else match factory, current with
       | Some f, None => (Some (f (clock s) None), tick s)
       | _, _ => (current, s)
       end.

(** [kidInfo.container] is created on the first visit of the slot. *)
Fixpoint fillContainers (s : SplitLayout) (w : TabWidget) (l : list TabInfo)
    : list TabInfo * SplitLayout :=
  match l with
  | [] => ([], s)
  | kidInfo :: rest =>
      let '(kidInfo', s1) :=
        match container kidInfo with
        | None =>
            (mkTabInfo (ti_ref kidInfo) (tab kidInfo) (content kidInfo)
               (Some (_tabContainerFactory s (clock s) w (tab kidInfo)
                        (content kidInfo))),
             tick s)
        | Some _ => (kidInfo, s)
        end in
      let '(rest', s2) := fillContainers s1 w rest in
      (kidInfo' :: rest', s2)
  end.

Definition _updateTabWidget (s : SplitLayout) (infoNode : TabWidgetInfoNode)
    (position : RelativePosition) : TabWidgetInfoNode * SplitLayout :=
  let tw := tabWidget infoNode in
  let '(leftDefault, s1) :=
    spaceDefault s
      (match position with TOP_LEFT | TOP_WIDE => true | _ => false end
       && isSome (_topLeftElement s))
      (_leftSpaceDefaultElementFactory s) (leftSpaceDefaultElement infoNode) in
  let '(rightDefault, s2) :=
    spaceDefault s1
      (match position with TOP_RIGHT | TOP_WIDE => true | _ => false end
       && isSome (_topRightElement s1))
      (_rightSpaceDefaultElementFactory s1)
      (rightSpaceDefaultElement infoNode) in
  match tw_children infoNode with
  | _ :: _ =>
      let '(kids, s3) := fillContainers s2 tw (tw_children infoNode) in
      (mkTabWidgetInfoNode (tw_ref infoNode) kids tw (emptyTab infoNode)
         (emptyTabContent infoNode) (emptyContainer infoNode)
         leftDefault rightDefault, s3)
  | [] =>
      match _emptySplitFactory s2 with
      | Some factory =>
          let '(eTab, s3) :=
            match emptyTab infoNode with
            | None => (createElement s2 (clock s2), snd (_nextTabId (tick s2)))
            | Some t => (t, s2)
            end in
          match emptyTabContent infoNode with
          | None =>
              let c := factory (clock s3) None in
              let s4 := tick s3 in
              let k := _tabContainerFactory s4 (clock s4) tw eTab c in
              (mkTabWidgetInfoNode (tw_ref infoNode) [] tw (Some eTab)
                 (Some c) (Some k) leftDefault rightDefault, tick s4)
          | Some c =>
              (mkTabWidgetInfoNode (tw_ref infoNode) [] tw (Some eTab)
                 (Some (factory (clock s3) (Some c))) (emptyContainer infoNode)
                 leftDefault rightDefault, tick s3)
          end
      | None =>
          (mkTabWidgetInfoNode (tw_ref infoNode) [] tw (emptyTab infoNode)
             (emptyTabContent infoNode) (emptyContainer infoNode)
             leftDefault rightDefault, s2)
      end
  end.

(** [_updateSplitter], with the dispatch on the node type that [_update] and
    the loop body both do. *)
Fixpoint _update (s : SplitLayout) (infoNode : RootInfoNode)
    (position : RelativePosition) : RootInfoNode * SplitLayout :=
  match infoNode with
  | NTabWidget info =>
      let '(info', s1) := _updateTabWidget s info position in
      (NTabWidget info', s1)
  | NSplitter r kids sp o =>
      let '(sp', s1) :=
        match sp with
        | None => (Some (createElement s (clock s)), tick s)
        | Some _ => (sp, s)
        end in
      let len := List.length kids in
      let '(kids', s2) :=
        (fix loop (l : list RootInfoNode) (i : nat) (s : SplitLayout)
           : list RootInfoNode * SplitLayout :=
           match l with
           | [] => ([], s)
           | kidInfo :: rest =>
               let newPosition :=
                 match o with
                 | VERTICAL =>
                     _computeNewPositionForVerticalSplits position i len
                 | HORIZONTAL =>
                     _computeNewPositionForHorizontalSplits position i len
                 end in
               let '(kidInfo', s') := _update s kidInfo newPosition in
               let '(rest', s'') := loop rest (S i) s' in
               (kidInfo' :: rest', s'')
           end) kids 0 s1 in
      (NSplitter r kids' sp' o, s2)
  end.

Definition update (s : SplitLayout) : SplitLayout :=
  let '(root, s1) := _update s (_rootInfoNode s) TOP_WIDE in
  setRoot s1 root.

(** ** Sequences of calls *)

Inductive Op :=
| OpAppendTab (w : TabWidget) (t : Tab) (tabContent : Element)
| OpRemoveTabContent (tabContent : Element)
| OpSplitAfterTabWidget (w : TabWidget) (o : SplitOrientation)
| OpSplitBeforeTabWidget (w : TabWidget) (o : SplitOrientation)
| OpSplitAfterTabContent (tabContent : Element) (o : SplitOrientation)
| OpMoveTabToTabWidget (t : Tab) (w : TabWidget) (tabIndex : Z)
| OpCloseSplitAtTabContent (tabContent : Element)
| OpUpdate
| OpSetEmptySplitElementFactory (f : option ElementFactory)
| OpSetTabContainerFactory (f : TabContentContainerElementFactory)
| OpSetTopLeftElement (el : option Element)
| OpSetTopRightElement (el : option Element)
| OpSetLeftSpaceDefaultElementFactory (f : option ElementFactory)
| OpSetRightSpaceDefaultElementFactory (f : option ElementFactory).

(** The object after a call, whether it returned or threw. *)
Definition stateAfter {A : Type} (o : Outcome A) : option SplitLayout :=
  match o with
  | Returned _ s => Some s
  | Threw s => Some s
  | NullSlot => None
  end.

Definition exec (op : Op) (s : SplitLayout) : option SplitLayout :=
  match op with
  | OpAppendTab w t c => stateAfter (appendTab s w t c)
  | OpRemoveTabContent c => stateAfter (removeTabContent s c)
  | OpSplitAfterTabWidget w o => stateAfter (splitAfterTabWidget s w o)
  | OpSplitBeforeTabWidget w o => stateAfter (splitBeforeTabWidget s w o)
  | OpSplitAfterTabContent c o => stateAfter (splitAfterTabContent s c o)
  | OpMoveTabToTabWidget t w i => stateAfter (moveTabToTabWidget s t w i)
  | OpCloseSplitAtTabContent c => stateAfter (closeSplitAtTabContent s c)
  | OpUpdate => Some (update s)
  | OpSetEmptySplitElementFactory f => Some (setEmptySplitElementFactory s f)
  | OpSetTabContainerFactory f => Some (setTabContainerFactory s f)
  | OpSetTopLeftElement el => Some (setTopLeftElement s el)
  | OpSetTopRightElement el => Some (setTopRightElement s el)
  | OpSetLeftSpaceDefaultElementFactory f =>
      Some (setLeftSpaceDefaultElementFactory s f)
  | OpSetRightSpaceDefaultElementFactory f =>
      Some (setRightSpaceDefaultElementFactory s f)
  end.

Fixpoint run (ops : list Op) (s : SplitLayout) : option SplitLayout :=
  match ops with
  | [] => Some s
  | op :: rest =>
      match exec op s with
      | Some s' => run rest s'
      | None => None
      end
  end.


(** ** Invariants and relations of the statements *)

(** No redundant splitter: every splitter node has at least two children. *)
Fixpoint splittersOk (n : RootInfoNode) : bool :=
  match n with
  | NTabWidget _ => true
  | NSplitter _ kids _ _ =>
      (2 <=? List.length kids) && forallb splittersOk kids
  end.

(** The tree just before [_removeRedundantSplitters] runs: a splitter may
    have a single child, whose own subtree then has no redundant splitter. *)
Fixpoint nearlyOk (n : RootInfoNode) : bool :=
  match n with
  | NTabWidget _ => true
  | NSplitter _ [only] _ _ => splittersOk only
  | NSplitter _ kids _ _ =>
      (2 <=? List.length kids) && forallb nearlyOk kids
  end.

(** Identities of the node objects, and of the tab info objects. *)
Fixpoint nodeRefs (n : RootInfoNode) : list Ref :=
  match n with
  | NTabWidget info => [tw_ref info]
  | NSplitter r kids _ _ => r :: concat (map nodeRefs kids)
  end.

Fixpoint tabRefs (n : RootInfoNode) : list Ref :=
  match n with
  | NTabWidget info => map ti_ref (tw_children info)
  | NSplitter _ kids _ _ => concat (map tabRefs kids)
  end.

(** The heap is a tree: no object occurs twice, every object was allocated,
    and every tab widget element was created by this layout, once. *)
Record WellFormed (s : SplitLayout) : Prop := {
  wf_nodes : NoDup (nodeRefs (_rootInfoNode s));
  wf_tabs : NoDup (tabRefs (_rootInfoNode s));
  wf_nodes_lt : Forall (fun r => r < heapCounter s) (nodeRefs (_rootInfoNode s));
  wf_tabs_lt : Forall (fun r => r < heapCounter s) (tabRefs (_rootInfoNode s));
  wf_widgets : NoDup (getAllTabWidgets (_rootInfoNode s));
  wf_widgets_le :
    Forall (fun w => w <= tabWidgetIdCounter s)
      (getAllTabWidgets (_rootInfoNode s))
}.

(** [Sub m n]: the node [m] is [n] or one of its descendants. *)
Inductive Sub (m : RootInfoNode) : RootInfoNode -> Prop :=
| Sub_here : Sub m m
| Sub_kid r kids k sp o :
    In k kids -> Sub m k -> Sub m (NSplitter r kids sp o).

(** [Replace m m' n n']: [n'] is [n] with one occurrence of the subtree [m]
    replaced by [m']. *)
Inductive Replace (m m' : RootInfoNode) : RootInfoNode -> RootInfoNode -> Prop :=
| Replace_here : Replace m m' m m'
| Replace_kid r pre k k' post sp o :
    Replace m m' k k' ->
    Replace m m' (NSplitter r (pre ++ k :: post) sp o)
                 (NSplitter r (pre ++ k' :: post) sp o).

(** [IsPath n nodes leaf]: [nodes] is a path of the tree from [n] down to
    [leaf], each node a child of the one before. *)
Inductive IsPath : RootInfoNode -> list RootInfoNode -> RootInfoNode -> Prop :=
| IsPath_one n : IsPath n [n] n
| IsPath_cons r kids sp o k l leaf :
    In k kids -> IsPath k l leaf ->
    IsPath (NSplitter r kids sp o) (NSplitter r kids sp o :: l) leaf.

(** Executable form of the well-formedness of the heap. *)
Fixpoint nodupb (l : list nat) : bool :=
  match l with
  | [] => true
  | x :: rest => negb (existsb (Nat.eqb x) rest) && nodupb rest
  end.

Definition wellFormed (s : SplitLayout) : bool :=
  nodupb (nodeRefs (_rootInfoNode s))
  && nodupb (tabRefs (_rootInfoNode s))
  && forallb (fun r => r <? heapCounter s) (nodeRefs (_rootInfoNode s))
  && forallb (fun r => r <? heapCounter s) (tabRefs (_rootInfoNode s))
  && nodupb (getAllTabWidgets (_rootInfoNode s))
  && forallb (fun w => w <=? tabWidgetIdCounter s)
       (getAllTabWidgets (_rootInfoNode s)).

(** *** splitAfter, in the words of the specification

    [SplitAfterIn target newGroup axis n n']: somewhere below the splitter
    [n] the tab group [target] received [newGroup] right after it, either as
    a sibling (parent splitter of the requested axis) or inside a new
    splitter of that axis which took the place of [target]. *)
Inductive SplitAfterIn (target newGroup : RootInfoNode)
    (axis : SplitOrientation) : RootInfoNode -> RootInfoNode -> Prop :=
| SplitAfter_sibling r pre post sp :
    SplitAfterIn target newGroup axis
      (NSplitter r (pre ++ target :: post) sp axis)
      (NSplitter r (pre ++ target :: newGroup :: post) sp axis)
| SplitAfter_nested r pre post sp o r' :
    o <> axis ->
    SplitAfterIn target newGroup axis
      (NSplitter r (pre ++ target :: post) sp o)
      (NSplitter r (pre ++ NSplitter r' [target; newGroup] None axis :: post)
         sp o)
| SplitAfter_deeper r pre k k' post sp o :
    SplitAfterIn target newGroup axis k k' ->
    SplitAfterIn target newGroup axis
      (NSplitter r (pre ++ k :: post) sp o)
      (NSplitter r (pre ++ k' :: post) sp o).

Inductive SplitAfter (target newGroup : RootInfoNode)
    (axis : SplitOrientation) : RootInfoNode -> RootInfoNode -> Prop :=
| SplitAfter_root r' :
    SplitAfter target newGroup axis target
      (NSplitter r' [target; newGroup] None axis)
| SplitAfter_in n n' :
    SplitAfterIn target newGroup axis n n' ->
    SplitAfter target newGroup axis n n'.

(** One-hole contexts of the tree: [plug c m] is the tree with [m] in the
    hole of [c]. *)
Inductive Ctx :=
| Hole
| InSplitter (r : Ref) (pre : list RootInfoNode) (c : Ctx)
             (post : list RootInfoNode) (sp : option Element)
             (o : SplitOrientation).

Fixpoint plug (c : Ctx) (m : RootInfoNode) : RootInfoNode :=
  match c with
  | Hole => m
  | InSplitter r pre c' post sp o => NSplitter r (pre ++ plug c' m :: post) sp o
  end.

Fixpoint ctxComp (c c' : Ctx) : Ctx :=
  match c with
  | Hole => c'
  | InSplitter r pre c1 post sp o => InSplitter r pre (ctxComp c1 c') post sp o
  end.

(** What a flattening function [g] of the tree (one that concatenates over
    the children of a splitter, after [hd] of the splitter itself) lists
    before and after the hole of a context. *)
Fixpoint ctxLeft (X : Type) (g : RootInfoNode -> list X) (hd : Ref -> list X)
    (c : Ctx) : list X :=
  match c with
  | Hole => []
  | InSplitter r pre c' _ _ _ =>
      hd r ++ concat (map g pre) ++ ctxLeft X g hd c'
  end.

Fixpoint ctxRight (X : Type) (g : RootInfoNode -> list X) (c : Ctx) : list X :=
  match c with
  | Hole => []
  | InSplitter _ _ c' post _ _ => ctxRight X g c' ++ concat (map g post)
  end.

(** The state after a mutation that allocated [dh] objects and created [dw]
    tab widgets. *)
Definition bump (s : SplitLayout) (dh dw : nat) (root : RootInfoNode)
    : SplitLayout :=
  mkSplitLayout root (_tabContainerFactory s) (_emptySplitFactory s)
    (_topLeftElement s) (_topRightElement s)
    (_leftSpaceDefaultElementFactory s) (_rightSpaceDefaultElementFactory s)
    (dw + tabWidgetIdCounter s) (tabIdCounter s) (dh + heapCounter s) (clock s)
    (createElement s) (severeLog s).

(** The invariant of the reachable states. *)
Definition Inv (s : SplitLayout) : Prop :=
  WellFormed s /\ splittersOk (_rootInfoNode s) = true.

Definition sameTree (s s' : SplitLayout) : Prop :=
  _rootInfoNode s' = _rootInfoNode s /\
  heapCounter s' = heapCounter s /\
  tabWidgetIdCounter s' = tabWidgetIdCounter s.

(** The slot array of a group after a tab moved inside it, and after a tab
    moved into it, as [moveTabToTabWidget] builds them. *)
Definition moved (ti : TabInfo) (l : list TabInfo) (k : Z) : list TabInfo :=
  dropTab ti (slice l 0 k) ++ ti :: dropTab ti (sliceFrom l k).

Definition inserted (ti : TabInfo) (l : list TabInfo) (k : Z) : list TabInfo :=
  slice l 0 k ++ ti :: sliceFrom l k.

(** [splitIndex] of [_splitTabWidgetAtTabContent]. *)
Definition splitIndexOf (info : TabWidgetInfoNode) (c0 : Element) : Z :=
  (indexOfElement (map content (tw_children info)) c0 + 1)%Z.

(** The ancestors of the hole of a context, outermost first. *)
Fixpoint spine (c : Ctx) (m : RootInfoNode) : list RootInfoNode :=
  match c with
  | Hole => []
  | InSplitter r pre c' post sp o =>
      NSplitter r (pre ++ plug c' m :: post) sp o :: spine c' m
  end.

(** *** closeSplit, in the words of the specification *)

(** The slots [slots] appended to the first (leftmost, depth-first) tab group
    of a subtree. *)
Fixpoint absorb (slots : list TabInfo) (n : RootInfoNode) : RootInfoNode :=
  match n with
  | NTabWidget info => NTabWidget (setTabs info (tw_children info ++ slots))
  | NSplitter r [] sp o => n
  | NSplitter r (first :: rest) sp o =>
      NSplitter r (absorb slots first :: rest) sp o
  end.

(** Two adjacent children of a splitter merged into one.  Of two tab groups
    the left one absorbs the slots of the right one; a tab group next to a
    splitter subtree is absorbed by the first tab group of that subtree. *)
Definition mergePair (leftKid rightKid : RootInfoNode) : option RootInfoNode :=
  match leftKid, rightKid with
  | NTabWidget _, NTabWidget rightGroup =>
      Some (absorb (tw_children rightGroup) leftKid)
  | NTabWidget group, NSplitter _ _ _ _ =>
      Some (absorb (tw_children group) rightKid)
  | NSplitter _ _ _ _, NTabWidget group =>
      Some (absorb (tw_children group) leftKid)
  | NSplitter _ _ _ _, NSplitter _ _ _ _ => None
  end.

(** The children of the parent splitter after the group at index [i] merged
    with its neighbour: the one to its right, or the one to its left when the
    group is the last child. *)
Definition mergeAt (kids : list RootInfoNode) (i : nat) : list RootInfoNode :=
  let j := if S i =? List.length kids then i - 1 else i in
  match nth_error kids j, nth_error kids (S j) with
  | Some leftKid, Some rightKid =>
      match mergePair leftKid rightKid with
      | Some merged => firstn j kids ++ merged :: skipn (S (S j)) kids
      | None => kids
      end
  | _, _ => kids
  end.

(** *** Equivalence of trees for [update()]

    [erase] forgets what [update()] materialises lazily: the container of a
    slot, the placeholder tab, content and container of an empty group, the
    default accessory elements and the splitter widgets. *)
Definition eraseTab (ti : TabInfo) : TabInfo :=
  mkTabInfo (ti_ref ti) (tab ti) (content ti) None.

Definition eraseInfo (info : TabWidgetInfoNode) : TabWidgetInfoNode :=
  mkTabWidgetInfoNode (tw_ref info) (map eraseTab (tw_children info))
    (tabWidget info) None None None None None.

Fixpoint erase (n : RootInfoNode) : RootInfoNode :=
  match n with
  | NTabWidget info => NTabWidget (eraseInfo info)
  | NSplitter r kids _ o => NSplitter r (map erase kids) None o
  end.

(** Same tab groups (same tab widget elements), same slot sequences, same
    arrangement. *)
Definition updateEquiv (n n' : RootInfoNode) : Prop := erase n = erase n'.

(** [shape] also forgets which node objects and which tab widget elements
    carry the slots. *)
Fixpoint shape (n : RootInfoNode) : RootInfoNode :=
  match n with
  | NTabWidget info =>
      NTabWidget (mkTabWidgetInfoNode 0 (map eraseTab (tw_children info)) 0
                    None None None None None)
  | NSplitter _ kids _ o => NSplitter 0 (map shape kids) None o
  end.

(** Same slot sequences in the same arrangement. *)
Definition shapeEquiv (n n' : RootInfoNode) : Prop := shape n = shape n'.

(** The fields of the state that [update()] leaves alone. *)
Definition sameConfig (s s' : SplitLayout) : Prop :=
  heapCounter s' = heapCounter s /\
  tabWidgetIdCounter s' = tabWidgetIdCounter s /\
  _tabContainerFactory s' = _tabContainerFactory s /\
  _emptySplitFactory s' = _emptySplitFactory s /\
  _topLeftElement s' = _topLeftElement s /\
  _topRightElement s' = _topRightElement s /\
  _leftSpaceDefaultElementFactory s' = _leftSpaceDefaultElementFactory s /\
  _rightSpaceDefaultElementFactory s' = _rightSpaceDefaultElementFactory s /\
  createElement s' = createElement s /\
  severeLog s' = severeLog s.

(** An [appendTab] with a content element that some slot of the tree
    already holds. *)
Definition appendsHeldContent (op : Op) (s : SplitLayout) : bool :=
  match op with
  | OpAppendTab _ _ c => existsb (Nat.eqb c) (getAllTabContents (_rootInfoNode s))
  | _ => false
  end.

(** A sequence of calls in which no [appendTab] does so. *)
Fixpoint runDistinct (ops : list Op) (s : SplitLayout) : option SplitLayout :=
  match ops with
  | [] => Some s
  | op :: rest =>
      if appendsHeldContent op s then None
      else match exec op s with
           | Some s' => runDistinct rest s'
           | None => None
           end
  end.

(** *** Sample layouts *)

Definition sampleDocument : nat -> Element := fun k => 1000 + k.

Definition sampleEmptySplitFactory : ElementFactory := fun k _ => 500 + k.

Definition afterCalls (ops : list Op) : SplitLayout :=
  match run ops (constructor 0 0 sampleDocument) with
  | Some s => s
  | None => constructor 0 0 sampleDocument
  end.

(** The root tab group (tab widget 1) with one slot (tab 50, content 60),
    split once: a vertical splitter over tab widgets 1 and 2. *)
Definition sampleSplitOnce : SplitLayout :=
  afterCalls [OpAppendTab 1 50 60; OpSplitAfterTabWidget 1 VERTICAL].

(** The same with a slot (tab 51, content 61) in tab widget 2. *)
Definition sampleTwoGroups : SplitLayout :=
  afterCalls [OpAppendTab 1 50 60; OpSplitAfterTabWidget 1 VERTICAL;
              OpAppendTab 2 51 61].


(** * Proofs *)

(** ** Lists *)

Lemma firstSome_Some (A B : Type) (f : A -> option B) l y :
  firstSome f l = Some y ->
  exists pre x post, l = pre ++ x :: post /\ f x = Some y /\
                     Forall (fun z => f z = None) pre.
Proof.
  induction l as [|a l IH]; simpl; [discriminate|].
  destruct (f a) eqn:E.
  - intros [= <-]. exists [], a, l. auto.
  - intros H. destruct (IH H) as (pre & x & post & -> & Hx & Hpre).
    exists (a :: pre), x, post. auto.
Qed.

Lemma firstSome_None (A B : Type) (f : A -> option B) l :
  firstSome f l = None <-> Forall (fun z => f z = None) l.
Proof.
  induction l as [|a l IH]; simpl.
  - split; auto.
  - destruct (f a) eqn:E.
    + split; [discriminate|]. intros H. inversion H. congruence.
    + rewrite IH. split; intros H; [constructor; auto|inversion H; auto].
Qed.

Lemma firstSome_skip (A B : Type) (f : A -> option B) pre x post :
  Forall (fun z => f z = None) pre ->
  firstSome f (pre ++ x :: post) =
  match f x with Some y => Some y | None => firstSome f post end.
Proof.
  induction pre as [|a pre IH]; simpl; intros H; [reflexivity|].
  inversion H; subst. rewrite H2. auto.
Qed.

Lemma concat_map_split (A B : Type) (g : A -> list B) pre x post :
  concat (map g (pre ++ x :: post)) =
  concat (map g pre) ++ g x ++ concat (map g post).
Proof.
  rewrite map_app, concat_app. simpl. reflexivity.
Qed.

Lemma In_concat_map (A B : Type) (g : A -> list B) l x y :
  In x l -> In y (g x) -> In y (concat (map g l)).
Proof.
  intros Hx Hy. apply in_concat. exists (g x). split; auto. now apply in_map.
Qed.

Lemma NoDup_app_l (A : Type) (l1 l2 : list A) : NoDup (l1 ++ l2) -> NoDup l1.
Proof.
  induction l1 as [|a l1 IH]; simpl; intros H; [constructor|].
  inversion H; subst. constructor; auto. intro; apply H2, in_or_app; auto.
Qed.

Lemma NoDup_app_r (A : Type) (l1 l2 : list A) : NoDup (l1 ++ l2) -> NoDup l2.
Proof.
  induction l1 as [|a l1 IH]; simpl; intros H; auto. inversion H; auto.
Qed.

Lemma NoDup_app_disj (A : Type) (l1 l2 : list A) x :
  NoDup (l1 ++ l2) -> In x l1 -> In x l2 -> False.
Proof.
  induction l1 as [|a l1 IH]; simpl; intros H H1 H2; [contradiction|].
  inversion H; subst. destruct H1 as [->|H1]; [|eauto].
  apply H4, in_or_app; auto.
Qed.

Lemma NoDup_app_intro (A : Type) (l1 l2 : list A) :
  NoDup l1 -> NoDup l2 -> (forall x, In x l1 -> In x l2 -> False) ->
  NoDup (l1 ++ l2).
Proof.
  induction l1 as [|a l1 IH]; simpl; intros H1 H2 H; auto.
  inversion H1; subst. constructor.
  - intros Hin. apply in_app_or in Hin. destruct Hin; [auto|]. eapply H; eauto.
  - apply IH; auto. intros; eapply H; eauto.
Qed.

(** ** Subtrees and replacement *)

Lemma Sub_trans a b c : Sub a b -> Sub b c -> Sub a c.
Proof.
  intros Hab Hbc. induction Hbc; auto. econstructor; eauto.
Qed.

Lemma Replace_Sub m m' n n' : Replace m m' n n' -> Sub m n /\ Sub m' n'.
Proof.
  induction 1 as [|r pre k k' post sp o _ [IH1 IH2]].
  - split; constructor.
  - split; (eapply Sub_kid; [|eassumption]); apply in_elt.
Qed.

Lemma Replace_trans m m' k k' n n' :
  Replace m m' k k' -> Replace k k' n n' -> Replace m m' n n'.
Proof.
  intros H1 H2. induction H2; auto. constructor; auto.
Qed.

Lemma Replace_refl_eq m n n' : Replace m m n n' -> n' = n.
Proof.
  induction 1; auto. congruence.
Qed.

Lemma Sub_Replace m m' n : Sub m n -> exists n', Replace m m' n n'.
Proof.
  induction 1 as [|r kids k sp o Hin _ [k' IH]].
  - eexists; constructor.
  - apply in_split in Hin. destruct Hin as (pre & post & ->).
    eexists. constructor. eassumption.
Qed.

(** Flattening functions ([nodeRefs], [tabRefs], [getAllTabWidgets],
    [getAllTabContents]) see a replacement as the replacement of a segment. *)
Section Flatten.
Variable X : Type.
Variable g : RootInfoNode -> list X.
Variable hd : Ref -> list X.
Hypothesis g_splitter : forall r kids sp o,
  g (NSplitter r kids sp o) = hd r ++ concat (map g kids).

Lemma Replace_flat m m' n n' :
  Replace m m' n n' ->
  exists A B, g n = A ++ g m ++ B /\ g n' = A ++ g m' ++ B.
Proof.
  induction 1 as [|r pre k k' post sp o _ (A & B & E1 & E2)].
  - exists [], []. simpl. now rewrite !app_nil_r.
  - exists (hd r ++ concat (map g pre) ++ A), (B ++ concat (map g post)).
    rewrite !g_splitter, !concat_map_split, E1, E2.
    now rewrite <- !app_assoc.
Qed.

Lemma Sub_flat m n : Sub m n -> exists A B, g n = A ++ g m ++ B.
Proof.
  intros H. destruct (Sub_Replace m m n H) as (n' & Hr).
  destruct (Replace_flat _ _ _ _ Hr) as (A & B & E & _). eauto.
Qed.

Lemma Sub_flat_In m n x : Sub m n -> In x (g m) -> In x (g n).
Proof.
  intros H Hx. destruct (Sub_flat _ _ H) as (A & B & ->).
  apply in_or_app; right; apply in_or_app; auto.
Qed.
End Flatten.

Lemma nodeRefs_splitter r kids sp o :
  nodeRefs (NSplitter r kids sp o) = [r] ++ concat (map nodeRefs kids).
Proof. reflexivity. Qed.

Lemma tabRefs_splitter r kids sp o :
  tabRefs (NSplitter r kids sp o) = [] ++ concat (map tabRefs kids).
Proof. reflexivity. Qed.

Lemma getAllTabWidgets_splitter r kids sp o :
  getAllTabWidgets (NSplitter r kids sp o)
  = [] ++ concat (map getAllTabWidgets kids).
Proof. reflexivity. Qed.

Lemma getAllTabContents_splitter r kids sp o :
  getAllTabContents (NSplitter r kids sp o)
  = [] ++ concat (map getAllTabContents kids).
Proof. reflexivity. Qed.

Lemma nodeRef_In n : In (nodeRef n) (nodeRefs n).
Proof. destruct n; simpl; auto. Qed.

Lemma Sub_nodeRef m n : Sub m n -> In (nodeRef m) (nodeRefs n).
Proof.
  intros H.
  eapply (Sub_flat_In _ nodeRefs (fun r => [r]) nodeRefs_splitter); eauto.
  apply nodeRef_In.
Qed.

(** ** Mutation through a reference *)

Lemma modifyNode_notin r f n : ~ In r (nodeRefs n) -> modifyNode r f n = n.
Proof.
  induction n as [info|r' kids sp o IH] using RootInfoNode_ind; simpl; intros Hn.
  - destruct (Nat.eqb_spec (tw_ref info) r); [tauto|reflexivity].
  - destruct (Nat.eqb_spec r' r); [tauto|].
    f_equal. rewrite <- (map_id kids) at 2. apply map_ext_in.
    intros k Hk. rewrite Forall_forall in IH. apply IH; auto.
    intro Hr. apply Hn. right. eapply In_concat_map; eauto.
Qed.

Lemma modifyNode_here f n : modifyNode (nodeRef n) f n = f n.
Proof.
  destruct n; simpl; now rewrite Nat.eqb_refl.
Qed.

Lemma NoDup_kids_split r pre k post sp o :
  NoDup (nodeRefs (NSplitter r (pre ++ k :: post) sp o)) ->
  NoDup (nodeRefs k) /\ ~ In r (nodeRefs k) /\
  (forall x, In x (nodeRefs k) ->
     Forall (fun z => ~ In x (nodeRefs z)) (pre ++ post)).
Proof.
  simpl. rewrite concat_map_split. intros H. inversion H as [|? ? Hr Hnd]; subst.
  split; [|split].
  - eapply NoDup_app_l, NoDup_app_r; eauto.
  - intro Hin. apply Hr. apply in_or_app; right; apply in_or_app; auto.
  - intros x Hx. apply Forall_forall. intros z Hz Hxz.
    apply in_app_or in Hz. destruct Hz as [Hz|Hz].
    + eapply (NoDup_app_disj _ _ _ x Hnd).
      * eapply In_concat_map; eauto.
      * apply in_or_app; auto.
    + apply NoDup_app_r in Hnd. eapply (NoDup_app_disj _ _ _ x Hnd); eauto.
      eapply In_concat_map; eauto.
Qed.

Lemma map_modify_split r f pre k post :
  Forall (fun z => ~ In r (nodeRefs z)) (pre ++ post) ->
  map (modifyNode r f) (pre ++ k :: post) = pre ++ modifyNode r f k :: post.
Proof.
  intros H. apply Forall_app in H. destruct H as [H1 H2].
  rewrite map_app. simpl. f_equal; [|f_equal].
  - rewrite <- (map_id pre) at 2. apply map_ext_in. intros z Hz.
    rewrite Forall_forall in H1. apply modifyNode_notin; auto.
  - rewrite <- (map_id post) at 2. apply map_ext_in. intros z Hz.
    rewrite Forall_forall in H2. apply modifyNode_notin; auto.
Qed.

(** With distinct node identities, a mutation through the reference of [m]
    replaces exactly the occurrence of [m]. *)
Lemma modifyNode_Replace' f m m' n n' :
  Replace m m' n n' -> NoDup (nodeRefs n) -> m' = f m ->
  modifyNode (nodeRef m) f n = n'.
Proof.
  induction 1 as [|r pre k k' post sp o Hrep IH]; intros Hnd ->.
  - apply modifyNode_here.
  - destruct (NoDup_kids_split _ _ _ _ _ _ Hnd) as (Hk & Hr & Hdisj).
    assert (Hin : In (nodeRef m) (nodeRefs k)).
    { apply Sub_nodeRef. now destruct (Replace_Sub _ _ _ _ Hrep). }
    simpl. destruct (Nat.eqb_spec r (nodeRef m)) as [->|_]; [tauto|].
    f_equal. rewrite map_modify_split; auto. f_equal. f_equal. auto.
Qed.

Lemma modifyNode_Replace f m n :
  Sub m n -> NoDup (nodeRefs n) ->
  Replace m (f m) n (modifyNode (nodeRef m) f n).
Proof.
  intros Hs Hnd. destruct (Sub_Replace m (f m) n Hs) as (n' & Hr).
  now rewrite (modifyNode_Replace' f _ _ _ _ Hr Hnd eq_refl).
Qed.

(** ** Array primitives on a known position *)

Lemma relIndex_nat len k : relIndex len (Z.of_nat k) = Nat.min k len.
Proof.
  unfold relIndex. destruct (Z.ltb_spec (Z.of_nat k) 0); lia.
Qed.

Lemma firstn_split (A : Type) (pre post : list A) :
  firstn (List.length pre) (pre ++ post) = pre.
Proof.
  rewrite firstn_app, firstn_all, Nat.sub_diag. simpl. apply app_nil_r.
Qed.

Lemma skipn_split (A : Type) (pre post : list A) :
  skipn (List.length pre) (pre ++ post) = post.
Proof.
  rewrite skipn_app, skipn_all, Nat.sub_diag. reflexivity.
Qed.

Lemma splice_insert_after (A : Type) (pre : list A) x post item :
  splice (pre ++ x :: post) (Z.of_nat (List.length pre) + 1) 0 item
  = pre ++ x :: item :: post.
Proof.
  assert (E : relIndex (List.length (pre ++ x :: post))
                (Z.of_nat (List.length pre) + 1) = List.length (pre ++ [x])).
  { unfold relIndex. rewrite !length_app. cbn [List.length].
    destruct (Z.ltb_spec (Z.of_nat (List.length pre) + 1) 0); lia. }
  unfold splice. rewrite E, Nat.add_0_r.
  replace (pre ++ x :: post) with ((pre ++ [x]) ++ post)
    by (rewrite <- app_assoc; reflexivity).
  rewrite firstn_split, skipn_split, <- app_assoc. reflexivity.
Qed.

Lemma splice_replace (A : Type) (pre : list A) x post item :
  splice (pre ++ x :: post) (Z.of_nat (List.length pre)) 1 item
  = pre ++ item :: post.
Proof.
  assert (E : relIndex (List.length (pre ++ x :: post))
                (Z.of_nat (List.length pre)) = List.length pre).
  { rewrite relIndex_nat, length_app. cbn [List.length]. lia. }
  unfold splice. rewrite E, firstn_split.
  replace (List.length pre + 1) with (List.length (pre ++ [x]))
    by (rewrite length_app; reflexivity).
  replace (pre ++ x :: post) with ((pre ++ [x]) ++ post)
    by (rewrite <- app_assoc; reflexivity).
  rewrite skipn_split. reflexivity.
Qed.

Lemma at_split (A : Type) (pre : list A) x post :
  at_ (pre ++ x :: post) (Z.of_nat (List.length pre)) = Some x.
Proof.
  unfold at_. destruct (Z.ltb_spec (Z.of_nat (List.length pre)) 0); [lia|].
  rewrite Nat2Z.id, nth_error_app2, Nat.sub_diag; auto.
Qed.

Lemma indexOfRef_split pre x post :
  ~ In (nodeRef x) (map nodeRef pre) ->
  indexOfRef (pre ++ x :: post) (nodeRef x) = Z.of_nat (List.length pre).
Proof.
  induction pre as [|a pre IH]; simpl; intros H.
  - now rewrite Nat.eqb_refl.
  - destruct (Nat.eqb_spec (nodeRef a) (nodeRef x)) as [e|ne]; [tauto|].
    rewrite IH by tauto.
    destruct (Z.ltb_spec (Z.of_nat (List.length pre)) 0); lia.
Qed.

Lemma dropNode_notin r l :
  ~ In r (map nodeRef l) -> dropNode r l = l.
Proof.
  induction l as [|a l IH]; simpl; intros H; auto.
  destruct (Nat.eqb_spec (nodeRef a) r); simpl; [tauto|].
  f_equal. tauto.
Qed.

Lemma dropNode_split pre x post :
  NoDup (map nodeRef (pre ++ x :: post)) ->
  dropNode (nodeRef x) (pre ++ x :: post) = pre ++ post.
Proof.
  rewrite map_app. simpl. intros H.
  unfold dropNode. rewrite filter_app. simpl. rewrite Nat.eqb_refl. simpl.
  fold (dropNode (nodeRef x) pre). fold (dropNode (nodeRef x) post).
  rewrite !dropNode_notin; auto.
  - apply NoDup_app_r in H. now inversion H.
  - intro Hin. eapply NoDup_app_disj; eauto. simpl; auto.
Qed.

Lemma NoDup_concat_heads (l : list RootInfoNode) :
  NoDup (concat (map nodeRefs l)) -> NoDup (map nodeRef l).
Proof.
  induction l as [|a l IH]; simpl; intros H; [constructor|].
  constructor.
  - intros Hin. apply in_map_iff in Hin. destruct Hin as (b & Hb & Hbl).
    eapply NoDup_app_disj; eauto.
    + apply nodeRef_In.
    + rewrite <- Hb. eapply In_concat_map; eauto. apply nodeRef_In.
  - apply IH. eapply NoDup_app_r; eauto.
Qed.

Lemma NoDup_kid_refs r kids sp o :
  NoDup (nodeRefs (NSplitter r kids sp o)) -> NoDup (map nodeRef kids).
Proof.
  simpl. intros H. inversion H; subst. now apply NoDup_concat_heads.
Qed.

Lemma Sub_NoDup_nodeRefs m n :
  Sub m n -> NoDup (nodeRefs n) -> NoDup (nodeRefs m).
Proof.
  intros Hs H.
  destruct (Sub_flat _ nodeRefs (fun r => [r]) nodeRefs_splitter _ _ Hs)
    as (A & B & E).
  rewrite E in H. eapply NoDup_app_l, NoDup_app_r; eauto.
Qed.

(** The position of a child of a splitter of the tree, as the code finds it. *)
Lemma child_position n r kids sp o k :
  NoDup (nodeRefs n) -> Sub (NSplitter r kids sp o) n -> In k kids ->
  exists pre post,
    kids = pre ++ k :: post /\
    indexOfRef kids (nodeRef k) = Z.of_nat (List.length pre) /\
    NoDup (map nodeRef kids).
Proof.
  intros Hnd Hs Hin.
  pose proof (NoDup_kid_refs _ _ _ _ (Sub_NoDup_nodeRefs _ _ Hs Hnd)) as Hk.
  apply in_split in Hin. destruct Hin as (pre & post & ->).
  exists pre, post. repeat split; auto.
  apply indexOfRef_split. rewrite map_app in Hk.
  intro Hin. eapply NoDup_app_disj; eauto. simpl; auto.
Qed.

(** ** Well-formedness *)

Lemma nodupb_NoDup l : nodupb l = true <-> NoDup l.
Proof.
  induction l as [|a l IH]; simpl.
  - split; auto. constructor.
  - rewrite andb_true_iff, negb_true_iff, IH. split.
    + intros [H1 H2]. constructor; auto. intro Hin.
      assert (existsb (Nat.eqb a) l = true); [|congruence].
      apply existsb_exists. exists a. split; auto. apply Nat.eqb_refl.
    + intros H. inversion H; subst. split; auto.
      destruct (existsb (Nat.eqb a) l) eqn:E; auto.
      apply existsb_exists in E. destruct E as (x & Hx & Hax).
      apply Nat.eqb_eq in Hax. subst. contradiction.
Qed.

Lemma wellFormed_WellFormed s : wellFormed s = true <-> WellFormed s.
Proof.
  unfold wellFormed. rewrite !andb_true_iff, !nodupb_NoDup, !forallb_forall.
  split.
  - intros (((((H1 & H2) & H3) & H4) & H5) & H6).
    constructor; auto; apply Forall_forall; intros x Hx.
    + apply Nat.ltb_lt; auto.
    + apply Nat.ltb_lt; auto.
    + apply Nat.leb_le; auto.
  - intros [H1 H2 H3 H4 H5 H6]. rewrite Forall_forall in H3, H4, H6.
    repeat split; auto; intros x Hx.
    + apply Nat.ltb_lt; auto.
    + apply Nat.ltb_lt; auto.
    + apply Nat.leb_le; auto.
Qed.

(** ** Contexts *)

Lemma plug_comp c c' m : plug (ctxComp c c') m = plug c (plug c' m).
Proof.
  induction c; simpl; congruence.
Qed.

Lemma Sub_plug m n : Sub m n -> exists c, n = plug c m.
Proof.
  induction 1 as [|r kids k sp o Hin _ [c ->]].
  - exists Hole. reflexivity.
  - apply in_split in Hin. destruct Hin as (pre & post & ->).
    exists (InSplitter r pre c post sp o). reflexivity.
Qed.

Lemma plug_Sub c m : Sub m (plug c m).
Proof.
  induction c; simpl; [constructor|].
  econstructor; [apply in_elt|eassumption].
Qed.

Lemma plug_Replace c m m' : Replace m m' (plug c m) (plug c m').
Proof.
  induction c; simpl; constructor; auto.
Qed.

Lemma modifyNode_plug f c m :
  NoDup (nodeRefs (plug c m)) ->
  modifyNode (nodeRef m) f (plug c m) = plug c (f m).
Proof.
  intros H. eapply modifyNode_Replace'; eauto. apply plug_Replace.
Qed.

Section FlattenCtx.
Variable X : Type.
Variable g : RootInfoNode -> list X.
Variable hd : Ref -> list X.
Hypothesis g_splitter : forall r kids sp o,
  g (NSplitter r kids sp o) = hd r ++ concat (map g kids).

Lemma flat_plug c m :
  g (plug c m) = ctxLeft X g hd c ++ g m ++ ctxRight X g c.
Proof.
  induction c as [|r pre c IH post sp o]; simpl.
  - now rewrite app_nil_r.
  - rewrite g_splitter, concat_map_split, IH. now rewrite <- !app_assoc.
Qed.

Lemma In_flat_plug c m m' x :
  In x (g (plug c m')) -> In x (g (plug c m)) \/ In x (g m').
Proof.
  rewrite !flat_plug, !in_app_iff. tauto.
Qed.

Lemma NoDup_flat_plug c m m' :
  NoDup (g (plug c m)) -> NoDup (g m') ->
  (forall x, In x (g m') -> In x (g m) \/ ~ In x (g (plug c m))) ->
  NoDup (g (plug c m')).
Proof.
  rewrite !flat_plug. intros Hnd Hm' Hfresh.
  assert (Hout : forall x, In x (g m') ->
                   ~ In x (ctxLeft X g hd c) /\ ~ In x (ctxRight X g c)).
  { intros x Hx. destruct (Hfresh x Hx) as [Hin|Hnot].
    - split; intro Hc.
      + apply (NoDup_app_disj _ _ _ x Hnd Hc).
        apply in_or_app; auto.
      + apply NoDup_app_r in Hnd. apply (NoDup_app_disj _ _ _ x Hnd Hin Hc).
    - rewrite !in_app_iff in Hnot. tauto. }
  apply NoDup_app_intro.
  - eapply NoDup_app_l; eauto.
  - apply NoDup_app_intro; auto.
    + eapply NoDup_app_r, NoDup_app_r; eauto.
    + intros x H1 H2. destruct (Hout x H1); auto.
  - intros x H1 H2. apply in_app_or in H2. destruct H2 as [H2|H2].
    + destruct (Hout x H2); auto.
    + apply (NoDup_app_disj _ _ _ x Hnd H1). apply in_or_app; auto.
Qed.

Lemma Forall_flat_plug (Q : X -> Prop) c m m' :
  Forall Q (g (plug c m)) -> Forall Q (g m') -> Forall Q (g (plug c m')).
Proof.
  rewrite !flat_plug, !Forall_app. tauto.
Qed.
End FlattenCtx.

Lemma splittersOk_plug c m m' :
  splittersOk (plug c m) = true -> splittersOk m' = true ->
  splittersOk (plug c m') = true.
Proof.
  induction c as [|r pre c IH post sp o]; simpl; auto.
  rewrite !andb_true_iff, !length_app, !forallb_app. simpl.
  rewrite !andb_true_iff. intuition.
Qed.

Lemma splittersOk_plug_inv c m :
  splittersOk (plug c m) = true -> splittersOk m = true.
Proof.
  induction c as [|r pre c IH post sp o]; simpl; auto.
  rewrite !andb_true_iff, !forallb_app. simpl.
  rewrite !andb_true_iff. intuition.
Qed.

Section FlattenCtxMore.
Variable X : Type.
Variable g : RootInfoNode -> list X.
Variable hd : Ref -> list X.
Hypothesis g_splitter : forall r kids sp o,
  g (NSplitter r kids sp o) = hd r ++ concat (map g kids).

Lemma NoDup_flat_plug_inv c m : NoDup (g (plug c m)) -> NoDup (g m).
Proof.
  rewrite (flat_plug _ g hd g_splitter). intros H.
  eapply NoDup_app_l, NoDup_app_r; eauto.
Qed.

Lemma In_flat_plug_sub c m x : In x (g m) -> In x (g (plug c m)).
Proof.
  rewrite (flat_plug _ g hd g_splitter), !in_app_iff. tauto.
Qed.

Lemma Permutation_flat_plug c m m' :
  Permutation (g m') (g m) -> Permutation (g (plug c m')) (g (plug c m)).
Proof.
  intros H. rewrite !(flat_plug _ g hd g_splitter).
  apply Permutation_app_head, Permutation_app_tail, H.
Qed.

Lemma Permutation_flat_plug_cons c m m' l :
  Permutation (g m') (l ++ g m) ->
  Permutation (g (plug c m')) (l ++ g (plug c m)).
Proof.
  intros H. rewrite !(flat_plug _ g hd g_splitter).
  rewrite H. rewrite !app_assoc.
  apply Permutation_app_tail, Permutation_app_tail.
  apply Permutation_app_comm.
Qed.

(** A child inserted among the children of a splitter. *)
Lemma Permutation_flat_insert r pre y post sp o :
  Permutation (g (NSplitter r (pre ++ y :: post) sp o))
              (g y ++ g (NSplitter r (pre ++ post) sp o)).
Proof.
  rewrite !g_splitter, concat_map_split, map_app, concat_app.
  transitivity (hd r ++ g y ++ concat (map g pre) ++ concat (map g post)).
  - apply Permutation_app_head, Permutation_app_swap_app.
  - apply Permutation_app_swap_app.
Qed.
End FlattenCtxMore.

(** A mutation confined to one subtree keeps the heap well formed, if the
    new subtree brings only objects it already had or objects that were not
    in the tree. *)
Lemma WellFormed_plug_gen s c m m' dh dw :
  WellFormed s -> _rootInfoNode s = plug c m ->
  NoDup (nodeRefs m') ->
  (forall r, In r (nodeRefs m') ->
     (In r (nodeRefs m) \/ ~ In r (nodeRefs (_rootInfoNode s)))
     /\ r < dh + heapCounter s) ->
  NoDup (tabRefs m') ->
  (forall r, In r (tabRefs m') ->
     (In r (tabRefs m) \/ ~ In r (tabRefs (_rootInfoNode s)))
     /\ r < dh + heapCounter s) ->
  NoDup (getAllTabWidgets m') ->
  (forall w, In w (getAllTabWidgets m') ->
     (In w (getAllTabWidgets m) \/ ~ In w (getAllTabWidgets (_rootInfoNode s)))
     /\ w <= dw + tabWidgetIdCounter s) ->
  WellFormed (bump s dh dw (plug c m')).
Proof.
  intros [H1 H2 H3 H4 H5 H6] E N1 F1 N2 F2 N3 F3. rewrite E in *.
  rewrite Forall_forall in H3, H4, H6.
  constructor; simpl.
  - eapply (NoDup_flat_plug _ nodeRefs _ nodeRefs_splitter); eauto.
    intros r Hr. apply F1; auto.
  - eapply (NoDup_flat_plug _ tabRefs _ tabRefs_splitter); eauto.
    intros r Hr. apply F2; auto.
  - apply Forall_forall. intros r Hr.
    apply (In_flat_plug _ nodeRefs _ nodeRefs_splitter _ m) in Hr.
    destruct Hr as [Hr|Hr]; [specialize (H3 _ Hr); lia|]. apply F1; auto.
  - apply Forall_forall. intros r Hr.
    apply (In_flat_plug _ tabRefs _ tabRefs_splitter _ m) in Hr.
    destruct Hr as [Hr|Hr]; [specialize (H4 _ Hr); lia|]. apply F2; auto.
  - eapply (NoDup_flat_plug _ getAllTabWidgets _ getAllTabWidgets_splitter);
      eauto.
    intros r Hr. apply F3; auto.
  - apply Forall_forall. intros r Hr.
    apply (In_flat_plug _ getAllTabWidgets _ getAllTabWidgets_splitter _ m)
      in Hr.
    destruct Hr as [Hr|Hr]; [specialize (H6 _ Hr); lia|]. apply F3; auto.
Qed.

(** The same, when the new subtree is the old one and freshly allocated
    objects, up to the order of the lists. *)
Lemma WellFormed_plug s c m m' dh dw freshN freshT freshW :
  WellFormed s -> _rootInfoNode s = plug c m ->
  Permutation (nodeRefs m') (freshN ++ nodeRefs m) ->
  Permutation (tabRefs m') (freshT ++ tabRefs m) ->
  Permutation (getAllTabWidgets m') (freshW ++ getAllTabWidgets m) ->
  NoDup (freshN ++ freshT) ->
  Forall (fun r => heapCounter s <= r < dh + heapCounter s) (freshN ++ freshT) ->
  NoDup freshW ->
  Forall (fun w => tabWidgetIdCounter s < w <= dw + tabWidgetIdCounter s)
    freshW ->
  WellFormed (bump s dh dw (plug c m')).
Proof.
  intros Hwf E P1 P2 P3 Nf Ff Nw Fw.
  pose proof Hwf as [H1 H2 H3 H4 H5 H6]. rewrite E in *.
  rewrite Forall_forall in H3, H4, H6, Ff, Fw.
  assert (Hsub : forall (g : RootInfoNode -> list nat) hd,
            (forall r kids sp o,
               g (NSplitter r kids sp o) = hd r ++ concat (map g kids)) ->
            forall x, In x (g m) -> In x (g (plug c m))).
  { intros g hd Hg x. apply (In_flat_plug_sub _ g hd Hg). }
  apply WellFormed_plug_gen with (m := m); auto.
  - eapply Permutation_NoDup; [symmetry; exact P1|].
    apply NoDup_app_intro.
    + eapply NoDup_app_l; eauto.
    + eapply (NoDup_flat_plug_inv _ nodeRefs _ nodeRefs_splitter); eauto.
    + intros x Hx Hm. assert (heapCounter s <= x) by (apply Ff, in_or_app; auto).
      assert (x < heapCounter s); [|lia].
      apply H3, (Hsub _ _ nodeRefs_splitter), Hm.
  - intros r Hr. apply (Permutation_in _ P1) in Hr. apply in_app_or in Hr.
    destruct Hr as [Hr|Hr].
    + assert (heapCounter s <= r < dh + heapCounter s)
        by (apply Ff, in_or_app; auto).
      split; [right|lia]. rewrite E. intro Hin. specialize (H3 _ Hin). lia.
    + split; [auto|].
      assert (r < heapCounter s); [|lia].
      apply H3, (Hsub _ _ nodeRefs_splitter), Hr.
  - eapply Permutation_NoDup; [symmetry; exact P2|].
    apply NoDup_app_intro.
    + eapply NoDup_app_r; eauto.
    + eapply (NoDup_flat_plug_inv _ tabRefs _ tabRefs_splitter); eauto.
    + intros x Hx Hm. assert (heapCounter s <= x) by (apply Ff, in_or_app; auto).
      assert (x < heapCounter s); [|lia].
      apply H4, (Hsub _ _ tabRefs_splitter), Hm.
  - intros r Hr. apply (Permutation_in _ P2) in Hr. apply in_app_or in Hr.
    destruct Hr as [Hr|Hr].
    + assert (heapCounter s <= r < dh + heapCounter s)
        by (apply Ff, in_or_app; auto).
      split; [right|lia]. rewrite E. intro Hin. specialize (H4 _ Hin). lia.
    + split; [auto|].
      assert (r < heapCounter s); [|lia].
      apply H4, (Hsub _ _ tabRefs_splitter), Hr.
  - eapply Permutation_NoDup; [symmetry; exact P3|].
    apply NoDup_app_intro; auto.
    + eapply (NoDup_flat_plug_inv _ getAllTabWidgets _
                getAllTabWidgets_splitter); eauto.
    + intros x Hx Hm. assert (tabWidgetIdCounter s < x) by (apply Fw; auto).
      assert (x <= tabWidgetIdCounter s); [|lia].
      apply H6, (Hsub _ _ getAllTabWidgets_splitter), Hm.
  - intros r Hr. apply (Permutation_in _ P3) in Hr. apply in_app_or in Hr.
    destruct Hr as [Hr|Hr].
    + assert (tabWidgetIdCounter s < r <= dw + tabWidgetIdCounter s)
        by (apply Fw; auto).
      split; [right|lia]. rewrite E. intro Hin. specialize (H6 _ Hin). lia.
    + split; [auto|].
      assert (r <= tabWidgetIdCounter s); [|lia].
      apply H6, (Hsub _ _ getAllTabWidgets_splitter), Hr.
Qed.

Section FlattenSwap.
Variable X : Type.
Variable g : RootInfoNode -> list X.
Variable hd : Ref -> list X.
Hypothesis g_splitter : forall r kids sp o,
  g (NSplitter r kids sp o) = hd r ++ concat (map g kids).

Lemma Permutation_flat_swap r pre a b post sp o :
  Permutation (g (NSplitter r (pre ++ b :: a :: post) sp o))
              (g (NSplitter r (pre ++ a :: b :: post) sp o)).
Proof.
  rewrite !g_splitter, !concat_map_split. simpl.
  apply Permutation_app_head, Permutation_app_head.
  rewrite !app_assoc. apply Permutation_app_tail, Permutation_app_comm.
Qed.
End FlattenSwap.

Lemma swapArrayItems_adjacent pre a b post :
  NoDup (map nodeRef (pre ++ a :: b :: post)) ->
  swapArrayItems (pre ++ a :: b :: post) b a = pre ++ b :: a :: post.
Proof.
  rewrite map_app. simpl. intros H.
  assert (Hab : nodeRef a <> nodeRef b).
  { apply NoDup_app_r in H. inversion H; subst. simpl in *. intuition. }
  assert (Hout : forall l, (forall z, In z l -> nodeRef z <> nodeRef a /\
                                               nodeRef z <> nodeRef b) ->
                 swapArrayItems l b a = l).
  { induction l as [|z l IH]; simpl; intros Hl; auto.
    destruct (Hl z (or_introl eq_refl)) as [Hza Hzb].
    destruct (Nat.eqb_spec (nodeRef z) (nodeRef b)); [tauto|].
    destruct (Nat.eqb_spec (nodeRef z) (nodeRef a)); [tauto|].
    f_equal. apply IH. intros; apply Hl; simpl; auto. }
  unfold swapArrayItems in *. rewrite map_app. simpl.
  rewrite Nat.eqb_refl.
  destruct (Nat.eqb_spec (nodeRef a) (nodeRef b)); [tauto|].
  rewrite Nat.eqb_refl. f_equal; [|f_equal; f_equal].
  - apply Hout. intros z Hz. split; intro Heq.
    + apply (NoDup_app_disj _ _ _ (nodeRef a) H).
      * rewrite <- Heq. now apply in_map.
      * simpl; auto.
    + apply (NoDup_app_disj _ _ _ (nodeRef b) H).
      * rewrite <- Heq. now apply in_map.
      * simpl; auto.
  - apply Hout. apply NoDup_app_r in H.
    inversion H as [|? ? Ha H']; subst. inversion H' as [|? ? Hb H'']; subst.
    intros z Hz. split; intro Heq.
    + apply Ha. right. rewrite <- Heq. now apply in_map.
    + apply Hb. rewrite <- Heq. now apply in_map.
Qed.

Lemma splittersOk_swap r pre a b post sp o :
  splittersOk (NSplitter r (pre ++ a :: b :: post) sp o) = true ->
  splittersOk (NSplitter r (pre ++ b :: a :: post) sp o) = true.
Proof.
  simpl. rewrite !andb_true_iff, !length_app, !forallb_app. simpl.
  rewrite !andb_true_iff. tauto.
Qed.


(** ** What the searches return *)

Lemma IsPath_ends n nodes leaf :
  IsPath n nodes leaf ->
  (nodes = [n] /\ leaf = n) \/
  (exists front r kids sp o,
     nodes = front ++ [NSplitter r kids sp o; leaf] /\
     In leaf kids /\ Sub (NSplitter r kids sp o) n).
Proof.
  induction 1 as [n|r kids sp o k l leaf Hin Hp IH].
  - left; auto.
  - right. destruct IH as [[-> ->]|(front & r' & kids' & sp' & o' & -> & Hl & Hs)].
    + exists [], r, kids, sp, o. repeat split; auto. constructor.
    + exists (NSplitter r kids sp o :: front), r', kids', sp', o'.
      repeat split; auto. econstructor; eauto.
Qed.

Lemma IsPath_Sub n nodes leaf : IsPath n nodes leaf -> Sub leaf n.
Proof.
  induction 1; [constructor|econstructor; eauto].
Qed.

Lemma findTabWidgetInfoByTabWidget_Some n w info :
  findTabWidgetInfoByTabWidget n w = Some info ->
  Sub (NTabWidget info) n /\ tabWidget info = w.
Proof.
  revert info.
  induction n as [i|r kids sp o IH] using RootInfoNode_ind; simpl; intros info H.
  - destruct (Nat.eqb_spec (tabWidget i) w); [|discriminate].
    injection H as <-. split; [constructor|auto].
  - apply firstSome_Some in H. destruct H as (pre & x & post & -> & Hx & _).
    rewrite Forall_forall in IH.
    destruct (IH x (in_elt _ _ _) _ Hx) as [Hs Hw].
    split; auto. econstructor; [apply in_elt|eauto].
Qed.

Lemma findTabWidgetInfoByTabWidget_None n w :
  findTabWidgetInfoByTabWidget n w = None <-> ~ In w (getAllTabWidgets n).
Proof.
  induction n as [i|r kids sp o IH] using RootInfoNode_ind; simpl.
  - destruct (Nat.eqb_spec (tabWidget i) w) as [e|ne]; split; intros H.
    + discriminate.
    + exfalso. apply H. left. exact e.
    + intros [?|[]]; congruence.
    + reflexivity.
  - rewrite firstSome_None. rewrite Forall_forall in IH.
    split.
    + intros H Hin. apply in_concat in Hin. destruct Hin as (l & Hl & Hw).
      apply in_map_iff in Hl. destruct Hl as (k & <- & Hk).
      rewrite Forall_forall in H. apply (IH k Hk); auto.
    + intros H. apply Forall_forall. intros k Hk. apply IH; auto.
      intro Hw. apply H. eapply In_concat_map; eauto.
Qed.

Lemma findPathToTabWidget_None_notin n w :
  findPathToTabWidget n w = None -> ~ In w (getAllTabWidgets n).
Proof.
  induction n as [i|r kids sp o IH] using RootInfoNode_ind; simpl.
  - destruct (Nat.eqb_spec (tabWidget i) w); [discriminate|].
    intros _ [?|[]]; congruence.
  - intros H Hin. apply firstSome_None in H.
    apply in_concat in Hin. destruct Hin as (l & Hl & Hw).
    apply in_map_iff in Hl. destruct Hl as (k & <- & Hk).
    rewrite Forall_forall in H, IH. specialize (H k Hk). simpl in H.
    destruct (findPathToTabWidget k w) eqn:E; [discriminate|].
    apply (IH k Hk); auto.
Qed.

Lemma findPathToTabWidget_Some n w path :
  findPathToTabWidget n w = Some path ->
  exists nodes info,
    path = map INode nodes /\ IsPath n nodes (NTabWidget info) /\
    tabWidget info = w /\ findTabWidgetInfoByTabWidget n w = Some info.
Proof.
  revert path.
  induction n as [i|r kids sp o IH] using RootInfoNode_ind; simpl; intros path H.
  - destruct (Nat.eqb_spec (tabWidget i) w); [|discriminate].
    injection H as <-. exists [NTabWidget i], i. repeat split; auto. constructor.
  - rewrite Forall_forall in IH.
    apply firstSome_Some in H. destruct H as (pre & x & post & -> & Hx & Hpre).
    destruct (findPathToTabWidget x w) as [p|] eqn:E; [|discriminate].
    injection Hx as <-.
    destruct (IH x (in_elt _ _ _) _ E) as (nodes & info & -> & Hp & Hw & Hf).
    exists (NSplitter r (pre ++ x :: post) sp o :: nodes), info.
    repeat split; auto.
    + econstructor; [apply in_elt|auto].
    + rewrite firstSome_skip, Hf; auto.
      eapply Forall_impl; [|exact Hpre]. simpl. intros z Hz.
      apply findTabWidgetInfoByTabWidget_None.
      apply findPathToTabWidget_None_notin.
      destruct (findPathToTabWidget z w); [discriminate|reflexivity].
Qed.

Lemma findPathToTabWidget_None n w :
  findPathToTabWidget n w = None <-> ~ In w (getAllTabWidgets n).
Proof.
  split; [apply findPathToTabWidget_None_notin|].
  intros H. destruct (findPathToTabWidget n w) eqn:E; auto.
  apply findPathToTabWidget_Some in E.
  destruct E as (nodes & info & _ & Hp & Hw & _). exfalso. apply H.
  apply IsPath_Sub in Hp. subst w.
  eapply (Sub_flat_In _ getAllTabWidgets (fun _ => [])
            getAllTabWidgets_splitter); eauto. simpl; auto.
Qed.

Lemma findTabWidgetInfoByTabContent_Some n c info oti :
  findTabWidgetInfoByTabContent n c = Some (info, oti) ->
  Sub (NTabWidget info) n /\
  match oti with
  | Some ti => In ti (tw_children info) /\ content ti = c
  | None => emptyTabContent info = Some c
  end.
Proof.
  revert info oti.
  induction n as [i|r kids sp o IH] using RootInfoNode_ind; simpl;
    intros info oti H.
  - destruct (emptyTabContent i) as [e|] eqn:Ee; simpl in H.
    + destruct (Nat.eqb_spec e c) as [->|ne].
      * injection H as <- <-. split; [constructor|auto].
      * apply firstSome_Some in H.
        destruct H as (pre & x & post & Hl & Hx & _).
        destruct (Nat.eqb_spec (content x) c); [|discriminate].
        injection Hx as <- <-. split; [constructor|]. split; auto.
        rewrite Hl. apply in_elt.
    + apply firstSome_Some in H.
      destruct H as (pre & x & post & Hl & Hx & _).
      destruct (Nat.eqb_spec (content x) c); [|discriminate].
      injection Hx as <- <-. split; [constructor|]. split; auto.
      rewrite Hl. apply in_elt.
  - apply firstSome_Some in H. destruct H as (pre & x & post & -> & Hx & _).
    rewrite Forall_forall in IH.
    destruct (IH x (in_elt _ _ _) _ _ Hx) as [Hs Hw].
    split; auto. econstructor; [apply in_elt|eauto].
Qed.

Lemma findTabWidgetInfoByTab_Some n t info oti :
  findTabWidgetInfoByTab n t = Some (info, oti) ->
  Sub (NTabWidget info) n /\
  match oti with
  | Some ti => In ti (tw_children info) /\ tab ti = t
  | None => tw_children info = [] /\ emptyTab info = Some t
  end.
Proof.
  revert info oti.
  induction n as [i|r kids sp o IH] using RootInfoNode_ind; simpl;
    intros info oti H.
  - destruct (tw_children i) as [|k0 l0] eqn:El.
    + destruct (emptyTab i) as [e|] eqn:Ee; simpl in H; [|discriminate].
      destruct (Nat.eqb_spec e t) as [->|ne]; [|discriminate].
      injection H as <- <-. split; [constructor|auto].
    + apply firstSome_Some in H.
      destruct H as (pre & x & post & Hl & Hx & _).
      destruct (Nat.eqb_spec (tab x) t); [|discriminate].
      injection Hx as <- <-. split; [constructor|]. split; auto.
      rewrite El, Hl. apply in_elt.
  - apply firstSome_Some in H. destruct H as (pre & x & post & -> & Hx & _).
    rewrite Forall_forall in IH.
    destruct (IH x (in_elt _ _ _) _ _ Hx) as [Hs Hw].
    split; auto. econstructor; [apply in_elt|eauto].
Qed.

(** A path of [findPathToTabContent]: splitters down to a tab widget node,
    which matched by its placeholder content, or else followed by the first
    of its tab infos with that content. *)
Lemma findPathToTabContent_Some n c path :
  findPathToTabContent n c = Some path ->
  exists nodes info,
    IsPath n nodes (NTabWidget info) /\
    ((path = map INode nodes /\ emptyTabContent info = Some c) \/
     (exists ti, path = map INode nodes ++ [ITab ti] /\
                 In ti (tw_children info) /\ content ti = c)).
Proof.
  revert path.
  induction n as [i|r kids sp o IH] using RootInfoNode_ind; simpl; intros path H.
  - exists [NTabWidget i], i. split; [constructor|].
    assert (Hslot : firstSome (fun kid => if content kid =? c
                       then Some [INode (NTabWidget i); ITab kid] else None)
                      (tw_children i) = Some path ->
                    exists ti, path = map INode [NTabWidget i] ++ [ITab ti] /\
                               In ti (tw_children i) /\ content ti = c).
    { intros Hf. apply firstSome_Some in Hf.
      destruct Hf as (pre & x & post & Hl & Hx & _).
      destruct (Nat.eqb_spec (content x) c); [|discriminate].
      injection Hx as <-. exists x. repeat split; auto.
      rewrite Hl. apply in_elt. }
    destruct (emptyTabContent i) as [e|] eqn:Ee; simpl in H; [|right; auto].
    destruct (Nat.eqb_spec e c) as [->|ne]; [|right; auto].
    injection H as <-. left. auto.
  - rewrite Forall_forall in IH.
    apply firstSome_Some in H. destruct H as (pre & x & post & -> & Hx & Hpre).
    destruct (findPathToTabContent x c) as [p|] eqn:E; [|discriminate].
    injection Hx as <-.
    destruct (IH x (in_elt _ _ _) _ E) as (nodes & info & Hp & Hcase).
    exists (NSplitter r (pre ++ x :: post) sp o :: nodes), info.
    split; [econstructor; [apply in_elt|auto]|].
    destruct Hcase as [[-> He]|(ti & -> & Hti)]; [left|right]; auto.
    exists ti. auto.
Qed.

Lemma findPathToTabContent_shape n c path :
  findPathToTabContent n c = Some path ->
  exists nodes info tail,
    path = map INode nodes ++ tail /\
    IsPath n nodes (NTabWidget info) /\
    (tail = [] \/ exists ti, tail = [ITab ti]).
Proof.
  intros H. apply findPathToTabContent_Some in H.
  destruct H as (nodes & info & Hp & [[-> _]|(ti & -> & _)]).
  - exists nodes, info, []. rewrite app_nil_r. auto.
  - exists nodes, info, [ITab ti]. eauto.
Qed.

(** A search that does not stop before the hole of a context continues in
    the hole. *)
Lemma findPathToTabWidget_plug c m w p :
  ~ In w (ctxLeft _ getAllTabWidgets (fun _ => []) c) ->
  findPathToTabWidget m w = Some p ->
  findPathToTabWidget (plug c m) w = Some (map INode (spine c m) ++ p).
Proof.
  induction c as [|r pre c IH post sp o]; simpl; intros Hl Hm; auto.
  rewrite !in_app_iff in Hl.
  rewrite firstSome_skip.
  - rewrite IH; auto.
  - apply Forall_forall. intros z Hz.
    assert (Hz' : findPathToTabWidget z w = None).
    { apply findPathToTabWidget_None. intro Hw. apply Hl. left.
      eapply In_concat_map; eauto. }
    now rewrite Hz'.
Qed.

Lemma findPathToTabWidget_kid r pre info post sp o :
  ~ In (tabWidget info) (concat (map getAllTabWidgets pre)) ->
  findPathToTabWidget (NSplitter r (pre ++ NTabWidget info :: post) sp o)
    (tabWidget info)
  = Some [INode (NSplitter r (pre ++ NTabWidget info :: post) sp o);
          INode (NTabWidget info)].
Proof.
  intros Hpre. simpl. rewrite firstSome_skip.
  - simpl. now rewrite Nat.eqb_refl.
  - apply Forall_forall. intros z Hz.
    assert (Hz' : findPathToTabWidget z (tabWidget info) = None).
    { apply findPathToTabWidget_None. intro Hw. apply Hpre.
      eapply In_concat_map; eauto. }
    now rewrite Hz'.
Qed.


(** ** splitAfterTabWidget *)

Lemma rev_path_two front p leaf :
  rev (map INode (front ++ [p; leaf]))
  = INode leaf :: INode p :: rev (map INode front).
Proof.
  rewrite map_app, rev_app_distr. reflexivity.
Qed.

Lemma orientation_eqb_spec a b : reflect (a = b) (orientation_eqb a b).
Proof.
  destruct a, b; simpl; constructor; congruence.
Qed.

Lemma Replace_SplitAfterIn t g axis p p' n n' :
  Replace p p' n n' -> SplitAfterIn t g axis p p' -> SplitAfterIn t g axis n n'.
Proof.
  induction 1; intros Hs; auto. apply SplitAfter_deeper; auto.
Qed.

Lemma findPathToTabWidget_found n w target :
  findTabWidgetInfoByTabWidget n w = Some target ->
  exists nodes,
    findPathToTabWidget n w = Some (map INode nodes) /\
    IsPath n nodes (NTabWidget target) /\ tabWidget target = w.
Proof.
  intros H. destruct (findPathToTabWidget n w) as [path|] eqn:E.
  - apply findPathToTabWidget_Some in E.
    destruct E as (nodes & info & -> & Hp & Hw & Hf).
    exists nodes. replace target with info by congruence. auto.
  - apply findPathToTabWidget_None, findTabWidgetInfoByTabWidget_None in E.
    congruence.
Qed.

(** The three outcomes of [splitAfterTabWidget] on a tab widget of the
    tree. *)
Lemma splitAfterTabWidget_shape s w axis target :
  NoDup (nodeRefs (_rootInfoNode s)) ->
  findTabWidgetInfoByTabWidget (_rootInfoNode s) w = Some target ->
  let T := NTabWidget target in
  let N := NTabWidget (mkTabWidgetInfoNode (heapCounter s) []
                         (S (tabWidgetIdCounter s)) None None None None None) in
  (_rootInfoNode s = T /\
   splitAfterTabWidget s w axis =
   Returned (Some (S (tabWidgetIdCounter s)))
     (bump s 2 1 (NSplitter (S (heapCounter s)) [T; N] None axis)))
  \/
  (exists c r pre post sp o,
     _rootInfoNode s = plug c (NSplitter r (pre ++ T :: post) sp o) /\
     ((o = axis /\
       splitAfterTabWidget s w axis =
       Returned (Some (S (tabWidgetIdCounter s)))
         (bump s 1 1 (plug c (NSplitter r (pre ++ T :: N :: post) sp o))))
      \/
      (o <> axis /\
       splitAfterTabWidget s w axis =
       Returned (Some (S (tabWidgetIdCounter s)))
         (bump s 2 1
            (plug c (NSplitter r
               (pre ++ NSplitter (S (heapCounter s)) [T; N] None axis :: post)
               sp o)))))).
Proof.
  intros Hnd Hfind T N.
  destruct (findPathToTabWidget_found _ _ _ Hfind) as (nodes & Hpath & Hp & Hw).
  unfold splitAfterTabWidget. rewrite Hpath.
  destruct (IsPath_ends _ _ _ Hp)
    as [[-> Hroot]|(front & r & kids & sp & o & -> & Hin & Hsub)].
  - left. split; [auto|]. simpl. rewrite <- Hroot. reflexivity.
  - right. rewrite rev_path_two.
    destruct (child_position _ _ _ _ _ _ Hnd Hsub Hin)
      as (pre & post & -> & Hidx & Hkids).
    simpl in Hidx.
    destruct (Sub_plug _ _ Hsub) as (c & Hc).
    exists c, r, pre, post, sp, o. split; [exact Hc|].
    rewrite Hc in Hnd.
    destruct (orientation_eqb_spec o axis) as [->|Hne]; [left|right];
      (split; [auto|]); simpl; rewrite Hc;
      rewrite (modifyNode_plug _ c (NSplitter _ _ _ _) Hnd); simpl;
      rewrite Hidx.
    + rewrite splice_insert_after. reflexivity.
    + rewrite splice_replace. reflexivity.
Qed.


(** ** Preservation of the invariant, one method at a time *)

Lemma WellFormed_sameTree s s' : sameTree s s' -> WellFormed s -> WellFormed s'.
Proof.
  intros (E1 & E2 & E3) [H1 H2 H3 H4 H5 H6].
  constructor; rewrite ?E1, ?E2, ?E3; auto.
Qed.

Lemma Inv_sameTree s s' : sameTree s s' -> Inv s -> Inv s'.
Proof.
  intros E [H1 H2]. split; [eapply WellFormed_sameTree; eauto|].
  destruct E as (-> & _); auto.
Qed.

Lemma sameTree_severe s msg : sameTree s (severe s msg).
Proof. repeat split. Qed.

Lemma sameTree_refl s : sameTree s s.
Proof. repeat split. Qed.

(** The frame rule of the invariant. *)
Lemma Inv_plug s c m m' dh dw freshN freshT freshW :
  Inv s -> _rootInfoNode s = plug c m ->
  Permutation (nodeRefs m') (freshN ++ nodeRefs m) ->
  Permutation (tabRefs m') (freshT ++ tabRefs m) ->
  Permutation (getAllTabWidgets m') (freshW ++ getAllTabWidgets m) ->
  NoDup (freshN ++ freshT) ->
  Forall (fun r => heapCounter s <= r < dh + heapCounter s) (freshN ++ freshT) ->
  NoDup freshW ->
  Forall (fun w => tabWidgetIdCounter s < w <= dw + tabWidgetIdCounter s)
    freshW ->
  splittersOk m' = true ->
  Inv (bump s dh dw (plug c m')).
Proof.
  intros [Hwf Hok] E P1 P2 P3 N1 F1 N2 F2 Hm'. split.
  - eapply WellFormed_plug; eauto.
  - simpl. rewrite E in Hok. eapply splittersOk_plug; eauto.
Qed.

Lemma contents_plug c m m' :
  Permutation (getAllTabContents m') (getAllTabContents m) ->
  Permutation (getAllTabContents (plug c m')) (getAllTabContents (plug c m)).
Proof.
  apply (Permutation_flat_plug _ getAllTabContents _ getAllTabContents_splitter).
Qed.

Ltac range_list :=
  repeat (apply Forall_cons; [simpl; lia|]); apply Forall_nil.

Ltac nodup_list :=
  repeat (apply NoDup_cons; [simpl; intuition lia|]); apply NoDup_nil.

Lemma perm_after (A : Type) (X Y : list A) t a :
  Permutation (X ++ t :: a :: Y) (a :: X ++ t :: Y).
Proof.
  transitivity (X ++ a :: t :: Y).
  - apply Permutation_app_head, perm_swap.
  - symmetry. apply Permutation_middle.
Qed.

Lemma setTabs_id info : setTabs info (tw_children info) = info.
Proof. destruct info; reflexivity. Qed.

(** A tab group replaced by a new splitter holding it and a new group, which
    takes the slots [l2] at the end of its slot array. *)
Lemma Inv_wrap s c info l1 l2 axis :
  Inv s -> _rootInfoNode s = plug c (NTabWidget info) ->
  tw_children info = l1 ++ l2 ->
  let N := NTabWidget (mkTabWidgetInfoNode (heapCounter s) l2
                         (S (tabWidgetIdCounter s)) None None None None None) in
  Inv (bump s 2 1
         (plug c (NSplitter (S (heapCounter s))
                    [NTabWidget (setTabs info l1); N] None axis))).
Proof.
  intros Hinv E El N.
  eapply Inv_plug with (freshN := [S (heapCounter s); heapCounter s])
                       (freshT := []) (freshW := [S (tabWidgetIdCounter s)]);
    [exact Hinv|exact E|simpl..].
  - apply perm_skip, perm_swap.
  - now rewrite El, map_app, !app_nil_r.
  - apply perm_swap.
  - nodup_list.
  - range_list.
  - nodup_list.
  - range_list.
  - reflexivity.
Qed.

(** A new group inserted after a tab group among the children of a splitter,
    taking the slots [l2] at the end of its slot array. *)
Lemma Inv_sibling s c r pre info post sp o l1 l2 :
  Inv s ->
  _rootInfoNode s = plug c (NSplitter r (pre ++ NTabWidget info :: post) sp o) ->
  tw_children info = l1 ++ l2 ->
  let N := NTabWidget (mkTabWidgetInfoNode (heapCounter s) l2
                         (S (tabWidgetIdCounter s)) None None None None None) in
  Inv (bump s 1 1
         (plug c (NSplitter r (pre ++ NTabWidget (setTabs info l1) :: N :: post)
                    sp o))).
Proof.
  intros Hinv E El N.
  assert (Hok : splittersOk (NSplitter r (pre ++ NTabWidget info :: post) sp o)
                = true).
  { destruct Hinv as [_ H]. rewrite E in H. eapply splittersOk_plug_inv; eauto. }
  eapply Inv_plug with (freshN := [heapCounter s]) (freshT := [])
                       (freshW := [S (tabWidgetIdCounter s)]);
    [exact Hinv|exact E|..].
  - simpl. rewrite !concat_map_split. simpl.
    etransitivity; [|apply perm_swap]. apply perm_skip. apply perm_after.
  - simpl. rewrite !concat_map_split. simpl. rewrite El, map_app.
    rewrite <- !app_assoc. reflexivity.
  - simpl. rewrite !concat_map_split. simpl. apply perm_after.
  - nodup_list.
  - range_list.
  - nodup_list.
  - range_list.
  - cbn [splittersOk] in *. apply andb_true_iff in Hok as [H1 H2].
    apply andb_true_iff; split.
    + apply Nat.leb_le in H1. apply Nat.leb_le.
      rewrite length_app in *. cbn [List.length] in *. lia.
    + rewrite forallb_app in *. apply andb_true_iff in H2 as [Ha Hb].
      cbn [forallb] in *. rewrite Ha. simpl.
      apply andb_true_iff in Hb as [_ Hb]. exact Hb.
Qed.

Lemma contents_wrap c info l1 l2 r r' w axis :
  tw_children info = l1 ++ l2 ->
  getAllTabContents
    (plug c (NSplitter r
               [NTabWidget (setTabs info l1);
                NTabWidget (mkTabWidgetInfoNode r' l2 w None None None None None)]
               None axis))
  = getAllTabContents (plug c (NTabWidget info)).
Proof.
  intros El.
  rewrite !(flat_plug _ getAllTabContents _ getAllTabContents_splitter).
  simpl. now rewrite El, map_app, !app_nil_r.
Qed.

Lemma contents_sibling c r pre info post sp o l1 l2 r' w :
  tw_children info = l1 ++ l2 ->
  getAllTabContents
    (plug c (NSplitter r
               (pre ++ NTabWidget (setTabs info l1)
                  :: NTabWidget (mkTabWidgetInfoNode r' l2 w None None None
                                   None None) :: post) sp o))
  = getAllTabContents
      (plug c (NSplitter r (pre ++ NTabWidget info :: post) sp o)).
Proof.
  intros El.
  rewrite !(flat_plug _ getAllTabContents _ getAllTabContents_splitter).
  simpl. rewrite !concat_map_split. simpl.
  now rewrite El, map_app, <- !app_assoc.
Qed.

Lemma root_bump s dh dw root : _rootInfoNode (bump s dh dw root) = root.
Proof. reflexivity. Qed.

Lemma In_widgets_kid c r pre k post sp o w :
  In w (getAllTabWidgets k) ->
  In w (getAllTabWidgets (plug c (NSplitter r (pre ++ k :: post) sp o))).
Proof.
  intros H.
  apply (In_flat_plug_sub _ getAllTabWidgets _ getAllTabWidgets_splitter).
  simpl. rewrite concat_map_split, !in_app_iff. auto.
Qed.

Lemma splitAfterTabWidget_found_Inv s w axis target :
  Inv s ->
  findTabWidgetInfoByTabWidget (_rootInfoNode s) w = Some target ->
  exists s',
    splitAfterTabWidget s w axis = Returned (Some (S (tabWidgetIdCounter s))) s'
    /\ Inv s' /\
    getAllTabContents (_rootInfoNode s') = getAllTabContents (_rootInfoNode s) /\
    In (S (tabWidgetIdCounter s)) (getAllTabWidgets (_rootInfoNode s')).
Proof.
  intros Hinv Hfind.
  pose proof (app_nil_r (tw_children target)) as El. symmetry in El.
  destruct (splitAfterTabWidget_shape s w axis target) as
    [[E ->]|(c & r & pre & post & sp & o & E & [[-> ->]|[Hne ->]])];
    auto; try apply Hinv.
  - eexists. split; [reflexivity|]. split; [|split]; rewrite ?root_bump.
    + pose proof (Inv_wrap s Hole target _ _ axis Hinv E El) as H.
      rewrite setTabs_id in H. exact H.
    + rewrite E.
      pose proof (contents_wrap Hole target _ _ (S (heapCounter s))
                    (heapCounter s) (S (tabWidgetIdCounter s)) axis El) as H.
      rewrite setTabs_id in H. exact H.
    + simpl. auto.
  - eexists. split; [reflexivity|]. split; [|split]; rewrite ?root_bump.
    + pose proof (Inv_sibling s c r pre target post sp axis _ _ Hinv E El) as H.
      rewrite setTabs_id in H. exact H.
    + rewrite E.
      pose proof (contents_sibling c r pre target post sp axis _ _
                    (heapCounter s) (S (tabWidgetIdCounter s)) El) as H.
      rewrite setTabs_id in H. exact H.
    + replace (pre ++ NTabWidget target ::
                 NTabWidget (mkTabWidgetInfoNode (heapCounter s) []
                   (S (tabWidgetIdCounter s)) None None None None None) :: post)
        with ((pre ++ [NTabWidget target]) ++
                 NTabWidget (mkTabWidgetInfoNode (heapCounter s) []
                   (S (tabWidgetIdCounter s)) None None None None None) :: post)
        by (rewrite <- app_assoc; reflexivity).
      apply In_widgets_kid. simpl. auto.
  - eexists. split; [reflexivity|]. split; [|split]; rewrite ?root_bump.
    + pose proof (Inv_wrap s (ctxComp c (InSplitter r pre Hole post sp o))
                    target (tw_children target) [] axis Hinv) as H.
      cbv zeta in H. rewrite !plug_comp, setTabs_id in H. apply H; auto.
    + rewrite E.
      pose proof (contents_wrap (ctxComp c (InSplitter r pre Hole post sp o))
                    target _ _ (S (heapCounter s))
                    (heapCounter s) (S (tabWidgetIdCounter s)) axis El) as H.
      rewrite !plug_comp, setTabs_id in H. exact H.
    + apply In_widgets_kid. simpl. auto.
Qed.

(** *** Mutations of the slot array of one tab group *)

Lemma modify_tabs root c info f :
  root = plug c (NTabWidget info) -> NoDup (nodeRefs root) ->
  modifyNode (tw_ref info) (withTabs f) root
  = plug c (NTabWidget (setTabs info (f (tw_children info)))).
Proof.
  intros -> H. apply (modifyNode_plug (withTabs f) c (NTabWidget info) H).
Qed.

Lemma Inv_setTabs s c info l' dh :
  Inv s -> _rootInfoNode s = plug c (NTabWidget info) ->
  NoDup (map ti_ref l') ->
  (forall r, In r (map ti_ref l') ->
     (In r (map ti_ref (tw_children info)) \/
      ~ In r (tabRefs (_rootInfoNode s)))
     /\ r < dh + heapCounter s) ->
  Inv (bump s dh 0 (plug c (NTabWidget (setTabs info l')))).
Proof.
  intros [Hwf Hok] E Hnd Hin. split.
  - pose proof Hwf as [H1 H2 H3 H4 H5 H6].
    rewrite Forall_forall in H3, H6.
    apply WellFormed_plug_gen with (m := NTabWidget info); auto; simpl.
    + rewrite E in H1.
      apply (NoDup_flat_plug_inv _ nodeRefs _ nodeRefs_splitter) in H1. auto.
    + intros r [<-|[]]. split; auto.
      assert (tw_ref info < heapCounter s); [|lia]. apply H3. rewrite E.
      apply (In_flat_plug_sub _ nodeRefs _ nodeRefs_splitter). simpl; auto.
    + rewrite E in H5.
      apply (NoDup_flat_plug_inv _ getAllTabWidgets _
               getAllTabWidgets_splitter) in H5. auto.
    + intros w [<-|[]]. split; auto. apply H6. rewrite E.
      apply (In_flat_plug_sub _ getAllTabWidgets _ getAllTabWidgets_splitter).
      simpl; auto.
  - rewrite root_bump. rewrite E in Hok. eapply splittersOk_plug; eauto.
Qed.

Lemma contents_setTabs c info l' :
  getAllTabContents (plug c (NTabWidget (setTabs info l')))
  = ctxLeft _ getAllTabContents (fun _ => []) c ++ map content l'
    ++ ctxRight _ getAllTabContents c.
Proof.
  apply (flat_plug _ getAllTabContents _ getAllTabContents_splitter).
Qed.

Lemma contents_tabs c info :
  getAllTabContents (plug c (NTabWidget info))
  = ctxLeft _ getAllTabContents (fun _ => []) c ++ map content (tw_children info)
    ++ ctxRight _ getAllTabContents c.
Proof.
  apply (flat_plug _ getAllTabContents _ getAllTabContents_splitter).
Qed.

Lemma tabRefs_tabs c info :
  tabRefs (plug c (NTabWidget info))
  = ctxLeft _ tabRefs (fun _ => []) c ++ map ti_ref (tw_children info)
    ++ ctxRight _ tabRefs c.
Proof.
  apply (flat_plug _ tabRefs _ tabRefs_splitter).
Qed.

Lemma In_tabRefs_bound s c info ti :
  Inv s -> _rootInfoNode s = plug c (NTabWidget info) ->
  In ti (tw_children info) -> ti_ref ti < heapCounter s.
Proof.
  intros [[_ _ _ H _ _] _] E Hin. rewrite Forall_forall in H. apply H.
  rewrite E, tabRefs_tabs, !in_app_iff. right; left. now apply in_map.
Qed.

Lemma NoDup_tabs s c info :
  Inv s -> _rootInfoNode s = plug c (NTabWidget info) ->
  NoDup (map ti_ref (tw_children info)).
Proof.
  intros [[_ H _ _ _ _] _] E. rewrite E in H.
  apply (NoDup_flat_plug_inv _ tabRefs _ tabRefs_splitter) in H. exact H.
Qed.

(** [appendTab] *)
Lemma appendTab_found_Inv s w t content0 info :
  Inv s ->
  findTabWidgetInfoByTabWidget (_rootInfoNode s) w = Some info ->
  exists s' c,
    appendTab s w t content0 = Returned tt s' /\ Inv s' /\
    _rootInfoNode s = plug c (NTabWidget info) /\
    _rootInfoNode s' =
      plug c (NTabWidget
                (setTabs info (tw_children info
                                 ++ [mkTabInfo (heapCounter s) t content0 None]))).
Proof.
  intros Hinv Hfind.
  destruct (findTabWidgetInfoByTabWidget_Some _ _ _ Hfind) as [Hsub _].
  destruct (Sub_plug _ _ Hsub) as (c & E).
  unfold appendTab. rewrite Hfind. simpl.
  rewrite (modify_tabs _ c info _ E) by apply Hinv.
  eexists _, c. split; [reflexivity|]. split; [|split; [exact E|reflexivity]].
  apply (Inv_setTabs s c info _ 1 Hinv E).
  - rewrite map_app. simpl.
    apply NoDup_app_intro; [eapply NoDup_tabs; eauto|nodup_list|].
    intros x Hx [<-|[]]. apply in_map_iff in Hx. destruct Hx as (ti & Hr & Hti).
    pose proof (In_tabRefs_bound s c info ti Hinv E Hti). lia.
  - intros r Hr. rewrite map_app, in_app_iff in Hr. simpl in Hr.
    destruct Hr as [Hr|[<-|[]]].
    + split; auto. apply in_map_iff in Hr. destruct Hr as (ti & <- & Hti).
      pose proof (In_tabRefs_bound s c info ti Hinv E Hti). lia.
    + split; [right|lia]. intro Hin.
      destruct Hinv as [[_ _ _ H _ _] _]. rewrite Forall_forall in H.
      specialize (H _ Hin). lia.
Qed.

Lemma dropTab_incl ti l x : In x (dropTab ti l) -> In x l.
Proof.
  unfold dropTab. rewrite filter_In. tauto.
Qed.

Lemma NoDup_map_filter (A B : Type) (f : A -> B) (p : A -> bool) l :
  NoDup (map f l) -> NoDup (map f (filter p l)).
Proof.
  induction l as [|a l IH]; simpl; intros H; [constructor|].
  inversion H; subst. destruct (p a); simpl; auto.
  constructor; auto. intro Hin. apply H2.
  apply in_map_iff in Hin. destruct Hin as (x & Hx & Hf).
  apply filter_In in Hf. apply in_map_iff. exists x. tauto.
Qed.

Lemma dropTab_notin ti l :
  ~ In (ti_ref ti) (map ti_ref l) -> dropTab ti l = l.
Proof.
  induction l as [|a l IH]; simpl; intros H; auto.
  destruct (Nat.eqb_spec (ti_ref a) (ti_ref ti)); simpl; [tauto|].
  f_equal. tauto.
Qed.

Lemma dropTab_split ti pre post :
  NoDup (map ti_ref (pre ++ ti :: post)) ->
  dropTab ti (pre ++ ti :: post) = pre ++ post.
Proof.
  rewrite map_app. simpl. intros H.
  unfold dropTab. rewrite filter_app. simpl. rewrite Nat.eqb_refl. simpl.
  fold (dropTab ti pre). fold (dropTab ti post).
  rewrite !dropTab_notin; auto.
  - apply NoDup_app_r in H. now inversion H.
  - intro Hin. apply (NoDup_app_disj _ _ _ _ H Hin). simpl; auto.
Qed.

Lemma dropTab_gone ti l : ~ In (ti_ref ti) (map ti_ref (dropTab ti l)).
Proof.
  intro H. apply in_map_iff in H. destruct H as (x & Hx & Hin).
  apply filter_In in Hin. destruct Hin as [_ Hne].
  rewrite Hx, Nat.eqb_refl in Hne. discriminate.
Qed.

Lemma dropTab_app ti a b : dropTab ti (a ++ b) = dropTab ti a ++ dropTab ti b.
Proof. apply filter_app. Qed.

Lemma dropTab_Permutation ti l :
  NoDup (map ti_ref l) -> In ti l -> Permutation l (ti :: dropTab ti l).
Proof.
  intros Hnd Hin. apply in_split in Hin. destruct Hin as (pre & post & ->).
  rewrite dropTab_split by auto. symmetry. apply Permutation_middle.
Qed.

(** [removeTabContent] *)
Lemma removeTabContent_found_Inv s c0 info oti :
  Inv s ->
  findTabWidgetInfoByTabContent (_rootInfoNode s) c0 = Some (info, oti) ->
  exists s' c l',
    removeTabContent s c0 = Returned tt s' /\ Inv s' /\
    _rootInfoNode s = plug c (NTabWidget info) /\
    _rootInfoNode s' = plug c (NTabWidget (setTabs info l')) /\
    l' = match oti with
         | Some ti => dropTab ti (tw_children info)
         | None => tw_children info
         end.
Proof.
  intros Hinv Hfind.
  destruct (findTabWidgetInfoByTabContent_Some _ _ _ _ Hfind) as [Hsub Hoti].
  destruct (Sub_plug _ _ Hsub) as (c & E).
  unfold removeTabContent. rewrite Hfind.
  rewrite (modify_tabs _ c info _ E) by apply Hinv.
  eexists _, c, _. split; [reflexivity|].
  split; [|split; [exact E|split; reflexivity]].
  apply (Inv_setTabs s c info _ 0 Hinv E).
  - destruct oti; [apply NoDup_map_filter|]; eapply NoDup_tabs; eauto.
  - intros r Hr.
    assert (Hin : In r (map ti_ref (tw_children info))).
    { destruct oti; auto. apply in_map_iff in Hr. destruct Hr as (x & <- & Hx).
      apply in_map. eapply dropTab_incl; eauto. }
    split; auto. apply in_map_iff in Hin. destruct Hin as (ti & <- & Hti).
    apply (In_tabRefs_bound s c info ti Hinv E Hti).
Qed.

(** *** moveTabToTabWidget *)

Lemma slice_0 (A : Type) (l : list A) k :
  slice l 0 k = firstn (relIndex (List.length l) k) l.
Proof.
  unfold slice. replace (relIndex (List.length l) 0) with 0; [reflexivity|].
  unfold relIndex. simpl. lia.
Qed.

Lemma slice_sliceFrom (A : Type) (l : list A) k : slice l 0 k ++ sliceFrom l k = l.
Proof.
  rewrite slice_0. apply firstn_skipn.
Qed.

Lemma Sub_plug_other c t m m' :
  Sub (NTabWidget t) (plug c m) -> ~ In (tw_ref t) (nodeRefs m) ->
  Sub (NTabWidget t) (plug c m').
Proof.
  induction c as [|r pre c IH post sp o]; simpl; intros Hs Hne.
  - exfalso. apply Hne. apply (Sub_nodeRef _ _ Hs).
  - inversion Hs as [|r0 kids k sp0 o0 Hin Hk]; subst.
    apply in_app_or in Hin. destruct Hin as [Hin|[<-|Hin]].
    + econstructor; [|exact Hk]. apply in_or_app; auto.
    + econstructor; [apply in_elt|]. apply IH; auto.
    + econstructor; [|exact Hk]. apply in_or_app; right; right; auto.
Qed.

Lemma moveTab_same_Permutation ti l k :
  NoDup (map ti_ref l) -> In ti l ->
  Permutation (dropTab ti (slice l 0 k) ++ ti :: dropTab ti (sliceFrom l k)) l.
Proof.
  intros Hnd Hin.
  rewrite <- Permutation_middle, <- dropTab_app, slice_sliceFrom.
  symmetry. now apply dropTab_Permutation.
Qed.

Lemma moveTab_insert_Permutation (ti : TabInfo) l k :
  Permutation (slice l 0 k ++ ti :: sliceFrom l k) (ti :: l).
Proof.
  rewrite <- Permutation_middle, slice_sliceFrom. reflexivity.
Qed.

Lemma moveTabToTabWidget_found s t w idx source ti target :
  Inv s ->
  findTabWidgetInfoByTab (_rootInfoNode s) t = Some (source, Some ti) ->
  findTabWidgetInfoByTabWidget (_rootInfoNode s) w = Some target ->
  let k := Z.min idx (Z.of_nat (List.length (tw_children target))) in
  exists s',
    moveTabToTabWidget s t w idx = Returned tt s' /\ Inv s' /\
    Permutation (getAllTabContents (_rootInfoNode s'))
                (getAllTabContents (_rootInfoNode s)) /\
    ((tw_ref source = tw_ref target /\
      exists c, _rootInfoNode s = plug c (NTabWidget source) /\
                _rootInfoNode s' =
                plug c (NTabWidget
                          (setTabs source (moved ti (tw_children source) k))))
     \/
     (tw_ref source <> tw_ref target /\
      exists c1 c2,
        _rootInfoNode s = plug c1 (NTabWidget source) /\
        plug c1 (NTabWidget (setTabs source (dropTab ti (tw_children source))))
        = plug c2 (NTabWidget target) /\
        _rootInfoNode s' =
        plug c2 (NTabWidget
                   (setTabs target (inserted ti (tw_children target) k))))).
Proof.
  intros Hinv Hsrc Htgt k.
  destruct (findTabWidgetInfoByTab_Some _ _ _ _ Hsrc) as [Hsub [Hti _]].
  destruct (findTabWidgetInfoByTabWidget_Some _ _ _ Htgt) as [Hsubt _].
  destruct (Sub_plug _ _ Hsub) as (c1 & E1).
  pose proof (NoDup_tabs s c1 source Hinv E1) as Hnd.
  unfold moveTabToTabWidget. rewrite Hsrc, Htgt. fold k.
  destruct (Nat.eqb_spec (tw_ref source) (tw_ref target)) as [e|ne].
  - rewrite (modify_tabs _ c1 source _ E1) by apply Hinv.
    eexists. split; [reflexivity|]. split; [|split].
    + apply (Inv_setTabs s c1 source _ 0 Hinv E1).
      * eapply Permutation_NoDup; [|exact Hnd]. symmetry.
        apply Permutation_map. now apply moveTab_same_Permutation.
      * intros r Hr.
        assert (Hin : In r (map ti_ref (tw_children source))).
        { eapply Permutation_in; [|exact Hr].
          apply Permutation_map. now apply moveTab_same_Permutation. }
        split; auto. apply in_map_iff in Hin. destruct Hin as (x & <- & Hx).
        apply (In_tabRefs_bound s c1 source x Hinv E1 Hx).
    + cbn [_rootInfoNode setRoot]. rewrite E1, contents_setTabs, contents_tabs.
      apply Permutation_app_head, Permutation_app_tail, Permutation_map.
      now apply moveTab_same_Permutation.
    + left. split; auto. exists c1. split; auto.
  - rewrite (modify_tabs _ c1 source _ E1) by apply Hinv.
    set (root1 := plug c1 (NTabWidget
                             (setTabs source (dropTab ti (tw_children source))))).
    assert (Hinv1 : Inv (bump s 0 0 root1)).
    { apply (Inv_setTabs s c1 source _ 0 Hinv E1).
      - now apply NoDup_map_filter.
      - intros r Hr.
        assert (Hin : In r (map ti_ref (tw_children source))).
        { apply in_map_iff in Hr. destruct Hr as (x & <- & Hx).
          apply in_map. eapply dropTab_incl; eauto. }
        split; auto. apply in_map_iff in Hin. destruct Hin as (x & <- & Hx).
        apply (In_tabRefs_bound s c1 source x Hinv E1 Hx). }
    assert (Hsub1 : Sub (NTabWidget target) root1).
    { unfold root1. eapply Sub_plug_other.
      - rewrite <- E1. exact Hsubt.
      - simpl. intros [e|[]]. congruence. }
    destruct (Sub_plug _ _ Hsub1) as (c2 & E2).
    rewrite (modify_tabs _ c2 target _ E2) by apply Hinv1.
    assert (Hgone : ~ In (ti_ref ti) (tabRefs root1)).
    { unfold root1. rewrite tabRefs_tabs. cbn [tw_children setTabs].
      destruct Hinv as [[_ H _ _ _ _] _]. rewrite E1, tabRefs_tabs in H.
      rewrite !in_app_iff. intros [Hl|[Hm|Hr]].
      - apply (NoDup_app_disj _ _ _ _ H Hl). apply in_or_app; left.
        now apply in_map.
      - apply (dropTab_gone _ _ Hm).
      - apply NoDup_app_r in H. apply (NoDup_app_disj _ _ _ (ti_ref ti) H); auto.
        now apply in_map. }
    eexists. split; [reflexivity|]. split; [|split].
    + apply (Inv_setTabs (bump s 0 0 root1) c2 target _ 0 Hinv1 E2).
      * eapply Permutation_NoDup.
        { symmetry. apply Permutation_map. apply moveTab_insert_Permutation. }
        simpl. constructor; [|eapply NoDup_tabs; eauto].
        intro Hin. apply Hgone. rewrite E2, tabRefs_tabs, !in_app_iff. auto.
      * intros r Hr.
        assert (Hin : In r (map ti_ref (ti :: tw_children target))).
        { eapply Permutation_in; [|exact Hr].
          apply Permutation_map. apply moveTab_insert_Permutation. }
        simpl in Hin. destruct Hin as [<-|Hin].
        -- split; [right; exact Hgone|].
           apply (In_tabRefs_bound s c1 source ti Hinv E1 Hti).
        -- split; auto. apply in_map_iff in Hin. destruct Hin as (x & <- & Hx).
           apply (In_tabRefs_bound _ c2 target x Hinv1 E2 Hx).
    + cbn [_rootInfoNode setRoot bump].
      rewrite contents_setTabs.
      transitivity (content ti :: getAllTabContents root1).
      * rewrite E2, contents_tabs.
        rewrite (Permutation_map content (moveTab_insert_Permutation ti _ k)).
        simpl. rewrite <- Permutation_middle. reflexivity.
      * unfold root1. rewrite E1, contents_setTabs, contents_tabs.
        rewrite (Permutation_map content
                   (dropTab_Permutation ti (tw_children source) Hnd Hti)).
        simpl. rewrite <- Permutation_middle. reflexivity.
    + right. split; auto. exists c1, c2. repeat split; auto.
Qed.

(** *** splitAfterTabContent *)

Lemma find_widget_of_Sub n info :
  Sub (NTabWidget info) n ->
  exists target, findTabWidgetInfoByTabWidget n (tabWidget info) = Some target.
Proof.
  intros Hs. destruct (findTabWidgetInfoByTabWidget n (tabWidget info)) eqn:E.
  - eauto.
  - exfalso. apply findTabWidgetInfoByTabWidget_None in E. apply E.
    apply (Sub_flat_In _ getAllTabWidgets _ getAllTabWidgets_splitter _ _ _ Hs).
    simpl; auto.
Qed.

Lemma nodeRefs_plug_tabs c info l :
  nodeRefs (plug c (NTabWidget (setTabs info l)))
  = nodeRefs (plug c (NTabWidget info)).
Proof.
  now rewrite !(flat_plug _ nodeRefs _ nodeRefs_splitter).
Qed.

(** Splitting the slot array of the tab group [info] of the tree at a
    content: what the tree and the counters become. *)
Lemma splitAfterTabContent_slot_shape s c0 axis nodes info ti :
  Inv s ->
  findPathToTabContent (_rootInfoNode s) c0
    = Some (map INode nodes ++ [ITab ti]) ->
  IsPath (_rootInfoNode s) nodes (NTabWidget info) ->
  let l1 := slice (tw_children info) 0 (splitIndexOf info c0) in
  let l2 := sliceFrom (tw_children info) (splitIndexOf info c0) in
  let T1 := NTabWidget (setTabs info l1) in
  let N := NTabWidget (mkTabWidgetInfoNode (heapCounter s) l2
                         (S (tabWidgetIdCounter s)) None None None None None) in
  (exists c,
     _rootInfoNode s = plug c (NTabWidget info) /\
     splitAfterTabContent s c0 axis =
     Returned (Some (S (tabWidgetIdCounter s)))
       (bump s 2 1 (plug c (NSplitter (S (heapCounter s)) [T1; N] None axis))))
  \/
  (exists c r pre post sp,
     _rootInfoNode s
       = plug c (NSplitter r (pre ++ NTabWidget info :: post) sp axis) /\
     splitAfterTabContent s c0 axis =
     Returned (Some (S (tabWidgetIdCounter s)))
       (bump s 1 1 (plug c (NSplitter r (pre ++ T1 :: N :: post) sp axis)))).
Proof.
  intros Hinv Hpath Hp l1 l2 T1 N.
  pose proof Hinv as [[Hnd _ _ _ _ _] _].
  unfold splitAfterTabContent. rewrite Hpath.
  destruct (IsPath_ends _ _ _ Hp)
    as [[-> Hroot]|(front & r & kids & sp & o & -> & Hin & Hsub)].
  - (* the group is the root *)
    left. exists Hole. rewrite <- Hroot. split; [reflexivity|]. reflexivity.
  - assert (Hlen : List.length (map INode (front ++ [NSplitter r kids sp o;
                      NTabWidget info]) ++ [ITab ti])
                   = 3 + List.length front).
    { rewrite length_app, length_map, length_app. simpl. lia. }
    cbv zeta. rewrite Hlen. cbn [Nat.add Nat.eqb Nat.leb].
    rewrite rev_app_distr, rev_path_two. cbn [rev app].
    destruct (child_position _ _ _ _ _ _ Hnd Hsub Hin)
      as (pre & post & -> & Hidx & Hkids).
    destruct (Sub_plug _ _ Hsub) as (c & Hc).
    assert (Hidx1 : indexOfRef (pre ++ T1 :: post) (tw_ref info)
                    = Z.of_nat (List.length pre)).
    { apply (indexOfRef_split pre T1 post). rewrite map_app in Hkids.
      intro Hi. apply (NoDup_app_disj _ _ _ _ Hkids Hi). simpl; auto. }
    assert (E1 : modifyNode (tw_ref info) (fun _ => T1) (_rootInfoNode s)
                 = plug c (NSplitter r (pre ++ T1 :: post) sp o)).
    { rewrite Hc.
      change (plug c (NSplitter r (pre ++ NTabWidget info :: post) sp o))
        with (plug c (plug (InSplitter r pre Hole post sp o) (NTabWidget info))).
      rewrite <- plug_comp.
      rewrite (modifyNode_plug (fun _ => T1) _ (NTabWidget info)).
      - rewrite plug_comp. reflexivity.
      - rewrite plug_comp. cbn [plug]. rewrite <- Hc. exact Hnd. }
    assert (Hnd1 : NoDup (nodeRefs (plug c (NSplitter r (pre ++ T1 :: post) sp o)))).
    { change (plug c (NSplitter r (pre ++ T1 :: post) sp o))
        with (plug c (plug (InSplitter r pre Hole post sp o) T1)).
      rewrite <- plug_comp. unfold T1. rewrite nodeRefs_plug_tabs.
      rewrite plug_comp. cbn [plug]. rewrite <- Hc. exact Hnd. }
    destruct (orientation_eqb_spec o axis) as [->|Hne].
    + right. exists c, r, pre, post, sp. split; [exact Hc|].
      unfold _splitTabWidgetAtTabContent, _createTabWidgetInfo. simpl.
      fold (splitIndexOf info c0). fold l1. fold T1. rewrite E1.
      rewrite (modifyNode_plug _ c (NSplitter _ _ _ _) Hnd1). simpl.
      rewrite Hidx1, splice_insert_after. reflexivity.
    + left. exists (ctxComp c (InSplitter r pre Hole post sp o)).
      rewrite !plug_comp. split; [exact Hc|].
      unfold _splitTabWidgetAtTabContentIntoSplitter,
        _splitTabWidgetAtTabContent, _createTabWidgetInfo. simpl.
      fold (splitIndexOf info c0). fold l1. fold T1. rewrite E1.
      rewrite (modifyNode_plug _ c (NSplitter _ _ _ _) Hnd1). simpl.
      rewrite Hidx1, splice_replace. reflexivity.
Qed.

Lemma splitAfterTabContent_empty_eq s c0 axis nodes info :
  findPathToTabContent (_rootInfoNode s) c0 = Some (map INode nodes) ->
  IsPath (_rootInfoNode s) nodes (NTabWidget info) ->
  splitAfterTabContent s c0 axis
  = splitAfterTabWidget s (tabWidget info) axis.
Proof.
  intros Hpath Hp.
  unfold splitAfterTabContent. rewrite Hpath.
  destruct (IsPath_ends _ _ _ Hp)
    as [[-> Hroot]|(front & r & kids & sp & o & -> & Hin & Hsub)].
  - rewrite <- Hroot. reflexivity.
  - destruct front as [|a front].
    + reflexivity.
    + assert (Hlen : List.length (map INode ((a :: front) ++
                        [NSplitter r kids sp o; NTabWidget info]))
                     = 3 + List.length front).
      { rewrite length_map, length_app. simpl. lia. }
      cbv zeta. rewrite Hlen. cbn [Nat.add Nat.eqb Nat.leb].
      rewrite rev_path_two. reflexivity.
Qed.

Lemma stateAfter_Returned (A : Type) (v : A) s s' :
  stateAfter (Returned v s) = Some s' -> s' = s.
Proof. simpl. congruence. Qed.

Lemma splitAfterTabWidget_Inv s w axis s' :
  Inv s -> stateAfter (splitAfterTabWidget s w axis) = Some s' ->
  Inv s' /\
  getAllTabContents (_rootInfoNode s') = getAllTabContents (_rootInfoNode s).
Proof.
  intros Hinv H.
  destruct (findTabWidgetInfoByTabWidget (_rootInfoNode s) w) as [target|] eqn:E.
  - destruct (splitAfterTabWidget_found_Inv s w axis target Hinv E)
      as (s1 & Hr & Hi & Hc & _).
    rewrite Hr in H. apply stateAfter_Returned in H. subst. auto.
  - unfold splitAfterTabWidget in H.
    apply findTabWidgetInfoByTabWidget_None, findPathToTabWidget_None in E.
    rewrite E in H. apply stateAfter_Returned in H. subst.
    split; [|reflexivity]. eapply Inv_sameTree; eauto. apply sameTree_severe.
Qed.

Lemma splitAfterTabContent_Inv s c0 axis s' :
  Inv s -> stateAfter (splitAfterTabContent s c0 axis) = Some s' ->
  Inv s' /\
  getAllTabContents (_rootInfoNode s') = getAllTabContents (_rootInfoNode s).
Proof.
  intros Hinv H.
  destruct (findPathToTabContent (_rootInfoNode s) c0) as [path|] eqn:E.
  - destruct (findPathToTabContent_Some _ _ _ E)
      as (nodes & info & Hp & [[-> He]|(ti & -> & Hti & Hc)]).
    + rewrite (splitAfterTabContent_empty_eq s c0 axis nodes info E Hp) in H.
      eapply splitAfterTabWidget_Inv; eauto.
    + pose proof (slice_sliceFrom _ (tw_children info) (splitIndexOf info c0))
        as El. symmetry in El.
      destruct (splitAfterTabContent_slot_shape s c0 axis nodes info ti Hinv E Hp)
        as [(c & Er & Hr)|(c & r & pre & post & sp & Er & Hr)];
        rewrite Hr in H; apply stateAfter_Returned in H; subst s';
        rewrite root_bump, Er.
      * split; [apply Inv_wrap; auto|apply contents_wrap; auto].
      * split; [apply Inv_sibling; auto|apply contents_sibling; auto].
  - unfold splitAfterTabContent in H. rewrite E in H.
    apply stateAfter_Returned in H. subst.
    split; [|reflexivity]. eapply Inv_sameTree; eauto. apply sameTree_severe.
Qed.

(** *** splitBeforeTabWidget *)

Lemma rev_spine_two spine p leaf :
  rev (map INode spine ++ [INode p; INode leaf])
  = INode leaf :: INode p :: rev (map INode spine).
Proof.
  rewrite rev_app_distr. reflexivity.
Qed.

Lemma swapWithNewTabWidget_Inv s1 c1 r1 pre T N post sp1 o1 :
  Inv s1 ->
  _rootInfoNode s1
    = plug c1 (NSplitter r1 (pre ++ NTabWidget T :: NTabWidget N :: post)
                 sp1 o1) ->
  let root' := plug c1 (NSplitter r1
                          (pre ++ NTabWidget N :: NTabWidget T :: post) sp1 o1) in
  swapWithNewTabWidget s1 (tabWidget T) (Some (tabWidget N))
    = Returned (Some (tabWidget N)) (bump s1 0 0 root')
  /\ Inv (bump s1 0 0 root')
  /\ Permutation (getAllTabContents root') (getAllTabContents (_rootInfoNode s1)).
Proof.
  intros Hinv E root'.
  pose proof Hinv as [[Hnd _ _ _ Hw _] Hok]. rewrite E in Hnd, Hw, Hok.
  rewrite (flat_plug _ getAllTabWidgets _ getAllTabWidgets_splitter) in Hw.
  simpl in Hw. rewrite concat_map_split in Hw. simpl in Hw.
  assert (HN1 : ~ In (tabWidget N)
                    (ctxLeft _ getAllTabWidgets (fun _ => []) c1)).
  { intro Hin. apply (NoDup_app_disj _ _ _ _ Hw Hin).
    rewrite !in_app_iff. simpl. auto. }
  apply NoDup_app_r, NoDup_app_l in Hw.
  assert (HN2 : ~ In (tabWidget N)
                    (concat (map getAllTabWidgets (pre ++ [NTabWidget T])))).
  { rewrite map_app, concat_app. simpl. rewrite in_app_iff. simpl.
    intros [Hin|[Hin|[]]].
    - apply (NoDup_app_disj _ _ _ _ Hw Hin). simpl; auto.
    - apply NoDup_app_r in Hw. inversion Hw; subst. simpl in *. intuition. }
  assert (HT : ~ In (tabWidget T) (concat (map getAllTabWidgets pre))).
  { intro Hin. apply (NoDup_app_disj _ _ _ _ Hw Hin). simpl; auto. }
  assert (Hkids : NoDup (map nodeRef
                           (pre ++ NTabWidget T :: NTabWidget N :: post))).
  { eapply NoDup_kid_refs.
    apply (NoDup_flat_plug_inv _ nodeRefs _ nodeRefs_splitter) in Hnd.
    exact Hnd. }
  unfold swapWithNewTabWidget. rewrite E.
  rewrite (findPathToTabWidget_plug c1 _ (tabWidget N)
             [INode (NSplitter r1 (pre ++ NTabWidget T :: NTabWidget N :: post)
                       sp1 o1); INode (NTabWidget N)]); auto.
  2:{ replace (pre ++ NTabWidget T :: NTabWidget N :: post)
        with ((pre ++ [NTabWidget T]) ++ NTabWidget N :: post)
        by (rewrite <- app_assoc; reflexivity).
      apply findPathToTabWidget_kid. exact HN2. }
  rewrite rev_spine_two.
  rewrite (findPathToTabWidget_kid r1 pre T _ sp1 o1 HT).
  cbn [rev app].
  rewrite (modifyNode_plug _ c1 (NSplitter _ _ _ _) Hnd).
  cbn [withKids]. rewrite (swapArrayItems_adjacent _ _ _ _ Hkids).
  split; [reflexivity|]. split.
  - eapply Inv_plug with (freshN := []) (freshT := []) (freshW := []);
      [exact Hinv|exact E|..].
    + apply (Permutation_flat_swap _ nodeRefs _ nodeRefs_splitter).
    + apply (Permutation_flat_swap _ tabRefs _ tabRefs_splitter).
    + apply (Permutation_flat_swap _ getAllTabWidgets _
               getAllTabWidgets_splitter).
    + constructor.
    + constructor.
    + constructor.
    + constructor.
    + apply splittersOk_swap. eapply splittersOk_plug_inv; eauto.
  - apply contents_plug.
    apply (Permutation_flat_swap _ getAllTabContents _
             getAllTabContents_splitter).
Qed.

Lemma splitBeforeTabWidget_Inv s w axis s' :
  Inv s -> stateAfter (splitBeforeTabWidget s w axis) = Some s' ->
  Inv s' /\
  Permutation (getAllTabContents (_rootInfoNode s'))
              (getAllTabContents (_rootInfoNode s)).
Proof.
  intros Hinv H. unfold splitBeforeTabWidget in H.
  destruct (findTabWidgetInfoByTabWidget (_rootInfoNode s) w) as [target|] eqn:E.
  - destruct (findTabWidgetInfoByTabWidget_Some _ _ _ E) as [_ Hw].
    destruct (splitAfterTabWidget_found_Inv s w axis target Hinv E)
      as (s1 & Hr & Hi & Hc & _).
    pose proof (app_nil_r (tw_children target)) as El. symmetry in El.
    set (N := mkTabWidgetInfoNode (heapCounter s) []
                (S (tabWidgetIdCounter s)) None None None None None).
    assert (Hgo : forall c1 r1 pre post sp1 o1,
              _rootInfoNode s1
              = plug c1 (NSplitter r1
                           (pre ++ NTabWidget target :: NTabWidget N :: post)
                           sp1 o1) ->
              Inv s' /\
              Permutation (getAllTabContents (_rootInfoNode s'))
                          (getAllTabContents (_rootInfoNode s))).
    { intros c1 r1 pre post sp1 o1 E1.
      destruct (swapWithNewTabWidget_Inv s1 c1 r1 pre target N post sp1 o1 Hi E1)
        as (Hsw & Hi' & Hp).
      rewrite Hr in H. cbv beta iota in H.
      rewrite Hw in Hsw.
      assert (H2 : stateAfter (Returned (Some (tabWidget N))
                     (bump s1 0 0 (plug c1 (NSplitter r1
                        (pre ++ NTabWidget N :: NTabWidget target :: post)
                        sp1 o1)))) = Some s').
      { rewrite <- H. f_equal. symmetry. exact Hsw. }
      apply stateAfter_Returned in H2. subst s'.
      split; [exact Hi'|]. rewrite root_bump, <- Hc. exact Hp. }
    destruct (splitAfterTabWidget_shape s w axis target) as
      [[Er Hs]|(c & r & pre & post & sp & o & Er & [[-> Hs]|[Hne Hs]])];
      try apply Hinv; auto;
      rewrite Hs in Hr; injection Hr as <-.
    + apply (Hgo Hole (S (heapCounter s)) [] [] None axis). reflexivity.
    + apply (Hgo c r pre post sp axis). reflexivity.
    + apply (Hgo (ctxComp c (InSplitter r pre Hole post sp o))
               (S (heapCounter s)) [] [] None axis).
      rewrite plug_comp. reflexivity.
  - unfold splitAfterTabWidget in H.
    apply findTabWidgetInfoByTabWidget_None, findPathToTabWidget_None in E.
    rewrite E in H. simpl in H. injection H as <-.
    split; [|reflexivity]. eapply Inv_sameTree; eauto. apply sameTree_severe.
Qed.


(** ** Redundant splitter elimination *)

Lemma rrs_splitter r kids sp o :
  _removeRedundantSplittersFromParent (NSplitter r kids sp o)
  = NSplitter r (map collapseKid kids) sp o.
Proof. reflexivity. Qed.

Lemma collapseKid_ok_id n :
  splittersOk n = true ->
  _removeRedundantSplittersFromParent n = n /\ collapseKid n = n.
Proof.
  induction n as [info|r kids sp o IH] using RootInfoNode_ind; intros Hok.
  - split; reflexivity.
  - cbn [splittersOk] in Hok. apply andb_true_iff in Hok as [Hlen Hall].
    apply Nat.leb_le in Hlen. rewrite forallb_forall in Hall.
    rewrite Forall_forall in IH.
    assert (E : map collapseKid kids = kids).
    { rewrite <- (map_id kids) at 2. apply map_ext_in. intros k Hk.
      apply IH; auto. }
    assert (E' : _removeRedundantSplittersFromParent (NSplitter r kids sp o)
                 = NSplitter r kids sp o).
    { rewrite rrs_splitter, E. reflexivity. }
    split; [exact E'|].
    destruct kids as [|a [|b rest]]; simpl in Hlen; try lia.
    exact E'.
Qed.

Lemma ok_nearly n : splittersOk n = true -> nearlyOk n = true.
Proof.
  induction n as [info|r kids sp o IH] using RootInfoNode_ind; intros Hok; auto.
  pose proof Hok as Hok'.
  cbn [splittersOk] in Hok. apply andb_true_iff in Hok as [Hlen Hall].
  apply Nat.leb_le in Hlen. rewrite forallb_forall in Hall.
  rewrite Forall_forall in IH.
  destruct kids as [|a [|b rest]]; simpl in Hlen; try lia.
  cbn [nearlyOk]. apply andb_true_iff. split; [reflexivity|].
  apply forallb_forall. intros k Hk. apply IH; auto.
Qed.

Lemma nearlyOk_many r a b rest sp o :
  nearlyOk (NSplitter r (a :: b :: rest) sp o)
  = forallb nearlyOk (a :: b :: rest).
Proof. reflexivity. Qed.

(** After the pass every splitter has two children or more. *)
Lemma collapseKid_nearly n :
  nearlyOk n = true -> splittersOk (collapseKid n) = true.
Proof.
  induction n as [info|r kids sp o IH] using RootInfoNode_ind; intros Hn; auto.
  rewrite Forall_forall in IH.
  destruct kids as [|a [|b rest]].
  - discriminate.
  - cbn [nearlyOk] in Hn. cbn [collapseKid].
    destruct (collapseKid_ok_id a Hn) as [-> _]. exact Hn.
  - rewrite nearlyOk_many in Hn. rewrite forallb_forall in Hn.
    change (collapseKid (NSplitter r (a :: b :: rest) sp o))
      with (NSplitter r (map collapseKid (a :: b :: rest)) sp o).
    cbn [splittersOk]. apply andb_true_iff. split.
    + rewrite length_map. reflexivity.
    + apply forallb_forall. intros k Hk. apply in_map_iff in Hk.
      destruct Hk as (k0 & <- & Hk0). apply IH; auto.
Qed.

Lemma _removeRedundantSplitters_ok s :
  nearlyOk (_rootInfoNode s) = true ->
  splittersOk (_rootInfoNode (_removeRedundantSplitters s)) = true.
Proof.
  intros Hn. unfold _removeRedundantSplitters.
  destruct (_rootInfoNode s) as [r kids sp o|info] eqn:E; [|now rewrite E].
  destruct kids as [|a [|b rest]].
  - discriminate.
  - exact Hn.
  - cbn [_rootInfoNode setRoot].
    apply (collapseKid_nearly (NSplitter r (a :: b :: rest) sp o) Hn).
Qed.

(** The pass only drops splitter nodes. *)
Section FlattenCollapse.
Variable g : RootInfoNode -> list nat.
Variable hd : Ref -> list nat.
Hypothesis g_splitter : forall r kids sp o,
  g (NSplitter r kids sp o) = hd r ++ concat (map g kids).

Lemma NoDup_concat_sub (f f' : RootInfoNode -> list nat) kids :
  (forall k, In k kids -> NoDup (f k) -> NoDup (f' k)) ->
  (forall k, In k kids -> incl (f' k) (f k)) ->
  NoDup (concat (map f kids)) -> NoDup (concat (map f' kids)).
Proof.
  induction kids as [|a kids IH]; simpl; intros H1 H2 Hnd; auto.
  apply NoDup_app_intro.
  - apply H1; auto. eapply NoDup_app_l; eauto.
  - apply IH; auto. eapply NoDup_app_r; eauto.
  - intros x Hx Hx'. apply (NoDup_app_disj _ _ _ x Hnd).
    + apply (H2 a); auto.
    + apply in_concat in Hx'. destruct Hx' as (l & Hl & Hxl).
      apply in_map_iff in Hl. destruct Hl as (k & <- & Hk).
      eapply In_concat_map; eauto. apply (H2 k); auto.
Qed.

Lemma incl_concat_sub (f f' : RootInfoNode -> list nat) kids :
  (forall k, In k kids -> incl (f' k) (f k)) ->
  incl (concat (map f' kids)) (concat (map f kids)).
Proof.
  intros H x Hx. apply in_concat in Hx. destruct Hx as (l & Hl & Hxl).
  apply in_map_iff in Hl. destruct Hl as (k & <- & Hk).
  eapply In_concat_map; eauto. apply (H k); auto.
Qed.

Lemma collapse_flat n :
  (incl (g (_removeRedundantSplittersFromParent n)) (g n) /\
   (NoDup (g n) -> NoDup (g (_removeRedundantSplittersFromParent n)))) /\
  (incl (g (collapseKid n)) (g n) /\
   (NoDup (g n) -> NoDup (g (collapseKid n)))).
Proof.
  induction n as [info|r kids sp o IH] using RootInfoNode_ind.
  - simpl. repeat split; auto using incl_refl.
  - rewrite Forall_forall in IH.
    assert (Hfp : incl (g (_removeRedundantSplittersFromParent
                              (NSplitter r kids sp o)))
                       (g (NSplitter r kids sp o)) /\
                  (NoDup (g (NSplitter r kids sp o)) ->
                   NoDup (g (_removeRedundantSplittersFromParent
                               (NSplitter r kids sp o))))).
    { rewrite rrs_splitter, !g_splitter, map_map. split.
      - apply incl_app; [apply incl_appl, incl_refl|].
        apply incl_appr.
        apply (incl_concat_sub g (fun k => g (collapseKid k))).
        intros k Hk. apply IH; auto.
      - intros Hnd. apply NoDup_app_intro.
        + eapply NoDup_app_l; eauto.
        + apply (NoDup_concat_sub g (fun k => g (collapseKid k)));
            [| |eapply NoDup_app_r; eauto].
          * intros k Hk. apply IH; auto.
          * intros k Hk. apply IH; auto.
        + intros x Hx Hx'. apply (NoDup_app_disj _ _ _ x Hnd Hx).
          revert Hx'.
          apply (incl_concat_sub g (fun k => g (collapseKid k))).
          intros k Hk. apply IH; auto. }
    split; [exact Hfp|].
    destruct kids as [|a [|b rest]]; try exact Hfp.
    cbn [collapseKid].
    destruct (IH a (or_introl eq_refl)) as [[Hi Hn] _].
    rewrite g_splitter. simpl. rewrite app_nil_r. split.
    + apply incl_appr. exact Hi.
    + intros Hnd. apply Hn. eapply NoDup_app_r; eauto.
Qed.
End FlattenCollapse.

Lemma collapse_same (g : RootInfoNode -> list nat) :
  (forall r kids sp o, g (NSplitter r kids sp o) = [] ++ concat (map g kids)) ->
  forall n, g (_removeRedundantSplittersFromParent n) = g n /\
            g (collapseKid n) = g n.
Proof.
  intros Hg n.
  induction n as [info|r kids sp o IH] using RootInfoNode_ind.
  - split; reflexivity.
  - rewrite Forall_forall in IH.
    assert (E : g (_removeRedundantSplittersFromParent (NSplitter r kids sp o))
                = g (NSplitter r kids sp o)).
    { rewrite rrs_splitter, !Hg. simpl. f_equal. rewrite map_map.
      apply map_ext_in. intros k Hk. apply IH; auto. }
    split; [exact E|].
    destruct kids as [|a [|b rest]]; try exact E.
    cbn [collapseKid]. rewrite Hg. simpl. rewrite app_nil_r.
    apply (IH a). simpl; auto.
Qed.

(** ** closeSplitAtTabContent *)

Lemma absorb_first slots n :
  splittersOk n = true ->
  exists D cW,
    firstTabWidgetInfo n = Some D /\ n = plug cW (NTabWidget D) /\
    absorb slots n
    = plug cW (NTabWidget (setTabs D (tw_children D ++ slots))).
Proof.
  induction n as [info|r kids sp o IH] using RootInfoNode_ind; intros Hok.
  - exists info, Hole. repeat split.
  - cbn [splittersOk] in Hok. apply andb_true_iff in Hok as [Hlen Hall].
    apply Nat.leb_le in Hlen.
    destruct kids as [|k rest]; [simpl in Hlen; lia|].
    simpl in Hall. apply andb_true_iff in Hall as [Hk _].
    inversion IH as [|? ? IHk _]; subst.
    destruct (IHk Hk) as (D & ck & Hf & Hp & Ha).
    exists D, (InSplitter r [] ck rest sp o). repeat split.
    + simpl. now rewrite Hf.
    + simpl. now rewrite <- Hp.
    + simpl. now rewrite Ha.
Qed.

Lemma absorb_nodeRef slots n : nodeRef (absorb slots n) = nodeRef n.
Proof. destruct n as [r [|k rest] sp o|info]; reflexivity. Qed.

Lemma absorb_flat_same (X : Type) (g : RootInfoNode -> list X) hd slots :
  (forall r kids sp o, g (NSplitter r kids sp o) = hd r ++ concat (map g kids)) ->
  (forall info l, g (NTabWidget (setTabs info l)) = g (NTabWidget info)) ->
  forall n, g (absorb slots n) = g n.
Proof.
  intros Hg Ht n.
  induction n as [info|r kids sp o IH] using RootInfoNode_ind.
  - apply Ht.
  - destruct kids as [|k rest]; [reflexivity|].
    inversion IH; subst. cbn [absorb]. rewrite !Hg. simpl. congruence.
Qed.

Lemma absorb_flat_slots (X : Type) (g : RootInfoNode -> list X)
    (f : TabInfo -> X) slots :
  (forall r kids sp o, g (NSplitter r kids sp o) = [] ++ concat (map g kids)) ->
  (forall info, g (NTabWidget info) = map f (tw_children info)) ->
  forall n, splittersOk n = true ->
            Permutation (g (absorb slots n)) (map f slots ++ g n).
Proof.
  intros Hg Ht n.
  induction n as [info|r kids sp o IH] using RootInfoNode_ind; intros Hok.
  - cbn [absorb]. rewrite !Ht. cbn [tw_children setTabs]. rewrite map_app.
    apply Permutation_app_comm.
  - cbn [splittersOk] in Hok. apply andb_true_iff in Hok as [Hlen Hall].
    apply Nat.leb_le in Hlen.
    destruct kids as [|k rest]; [simpl in Hlen; lia|].
    simpl in Hall. apply andb_true_iff in Hall as [Hk _].
    inversion IH as [|? ? IHk _]; subst. cbn [absorb]. rewrite !Hg. simpl.
    rewrite (IHk Hk). now rewrite <- app_assoc.
Qed.

Lemma absorb_ok slots n : splittersOk (absorb slots n) = splittersOk n.
Proof.
  induction n as [info|r kids sp o IH] using RootInfoNode_ind; auto.
  destruct kids as [|k rest]; [reflexivity|].
  inversion IH; subst. cbn [absorb splittersOk]. simpl. congruence.
Qed.

Lemma nodeRefs_setTabs info l :
  nodeRefs (NTabWidget (setTabs info l)) = nodeRefs (NTabWidget info).
Proof. reflexivity. Qed.

Lemma widgets_setTabs info l :
  getAllTabWidgets (NTabWidget (setTabs info l))
  = getAllTabWidgets (NTabWidget info).
Proof. reflexivity. Qed.

(** The two assignments of a merge: the slots go to the first tab group of
    the surviving child [W], then the merged group [V] leaves the children of
    the parent. *)
Lemma merge_two_steps root c r k1 W k2 sp o V slots :
  root = plug c (NSplitter r (k1 ++ W :: k2) sp o) ->
  NoDup (nodeRefs root) -> splittersOk W = true ->
  forall D, firstTabWidgetInfo W = Some D ->
  modifyNode r (withKids (dropNode V))
    (modifyNode (tw_ref D) (withTabs (fun l => l ++ slots)) root)
  = plug c (NSplitter r (dropNode V (k1 ++ absorb slots W :: k2)) sp o).
Proof.
  intros E Hnd Hok D HD.
  destruct (absorb_first slots W Hok) as (D' & cW & Hf & HW & Ha).
  assert (D' = D) by congruence. subst D'.
  set (cD := ctxComp c (ctxComp (InSplitter r k1 Hole k2 sp o) cW)).
  assert (ED : root = plug cD (NTabWidget D)).
  { unfold cD. rewrite !plug_comp. cbn [plug]. rewrite <- HW. exact E. }
  rewrite (modify_tabs root cD D _ ED Hnd).
  assert (E1 : plug cD (NTabWidget (setTabs D (tw_children D ++ slots)))
               = plug c (NSplitter r (k1 ++ absorb slots W :: k2) sp o)).
  { unfold cD. rewrite !plug_comp. cbn [plug]. now rewrite <- Ha. }
  rewrite E1.
  apply (modifyNode_plug (withKids (dropNode V)) c (NSplitter r _ sp o)).
  rewrite <- E1. rewrite nodeRefs_plug_tabs, <- ED. exact Hnd.
Qed.

Lemma nearlyOk_ge2 r kids sp o :
  2 <= List.length kids ->
  nearlyOk (NSplitter r kids sp o) = forallb nearlyOk kids.
Proof.
  destruct kids as [|a [|b rest]]; simpl; intros; try lia. reflexivity.
Qed.

Lemma nearlyOk_plug c m m' :
  splittersOk (plug c m) = true -> nearlyOk m' = true ->
  nearlyOk (plug c m') = true.
Proof.
  induction c as [|r pre c IH post sp o]; cbn [plug]; auto.
  intros Hok Hm'. cbn [splittersOk] in Hok.
  apply andb_true_iff in Hok as [Hlen Hall].
  apply Nat.leb_le in Hlen. rewrite length_app in Hlen. simpl in Hlen.
  rewrite forallb_app in Hall. simpl in Hall.
  apply andb_true_iff in Hall as [Hpre Hrest].
  apply andb_true_iff in Hrest as [Hx Hpost].
  change (nearlyOk (NSplitter r (pre ++ plug c m' :: post) sp o) = true).
  rewrite nearlyOk_ge2 by (rewrite length_app; simpl; lia).
  rewrite forallb_app. simpl. rewrite IH by auto.
  rewrite forallb_forall in Hpre, Hpost.
  rewrite !andb_true_iff. repeat split; auto;
    apply forallb_forall; intros k Hk; apply ok_nearly; auto.
Qed.

Lemma nearlyOk_kids r kids sp o :
  kids <> [] -> forallb splittersOk kids = true ->
  nearlyOk (NSplitter r kids sp o) = true.
Proof.
  intros Hne Hall. destruct kids as [|a [|b rest]]; [congruence| |].
  - simpl in *. now rewrite andb_true_r in Hall.
  - rewrite nearlyOk_many. rewrite forallb_forall in Hall.
    apply forallb_forall. intros k Hk. apply ok_nearly; auto.
Qed.

Section FlattenMerge.
Variable X : Type.
Variable g : RootInfoNode -> list X.
Variable hd : Ref -> list X.
Hypothesis g_splitter : forall r kids sp o,
  g (NSplitter r kids sp o) = hd r ++ concat (map g kids).

Lemma flat_merge_right r a x y b sp o m :
  g m = g x ->
  Permutation (g (NSplitter r (a ++ x :: y :: b) sp o))
              (g y ++ g (NSplitter r (a ++ m :: b) sp o)).
Proof.
  intros Hm.
  replace (a ++ x :: y :: b) with ((a ++ [x]) ++ y :: b)
    by (rewrite <- app_assoc; reflexivity).
  rewrite (Permutation_flat_insert _ g hd g_splitter).
  apply Permutation_app_head.
  rewrite <- app_assoc. simpl.
  rewrite !g_splitter, !concat_map_split, Hm. reflexivity.
Qed.

Lemma flat_merge_left r a x y b sp o m :
  g m = g y ->
  Permutation (g (NSplitter r (a ++ x :: y :: b) sp o))
              (g x ++ g (NSplitter r (a ++ m :: b) sp o)).
Proof.
  intros Hm.
  rewrite (Permutation_flat_insert _ g hd g_splitter).
  apply Permutation_app_head.
  rewrite !g_splitter, !concat_map_split, Hm. reflexivity.
Qed.

Lemma flat_merge_slots r a x y b sp o m :
  Permutation (g m) (g x ++ g y) ->
  Permutation (g (NSplitter r (a ++ m :: b) sp o))
              (g (NSplitter r (a ++ x :: y :: b) sp o)).
Proof.
  intros Hm. rewrite !g_splitter, !concat_map_split. simpl.
  rewrite Hm, <- !app_assoc. reflexivity.
Qed.
End FlattenMerge.

(** A mutation that only drops nodes and keeps the tab infos. *)
Lemma WellFormed_plug_drop s c m m' goneN goneW :
  WellFormed s -> _rootInfoNode s = plug c m ->
  Permutation (nodeRefs m) (goneN ++ nodeRefs m') ->
  Permutation (tabRefs m') (tabRefs m) ->
  Permutation (getAllTabWidgets m) (goneW ++ getAllTabWidgets m') ->
  WellFormed (bump s 0 0 (plug c m')).
Proof.
  intros Hwf E P1 P2 P3.
  pose proof Hwf as [H1 H2 H3 H4 H5 H6]. rewrite E in *.
  rewrite Forall_forall in H3, H4, H6.
  assert (Hsub : forall (g : RootInfoNode -> list nat) hd,
            (forall r kids sp o,
               g (NSplitter r kids sp o) = hd r ++ concat (map g kids)) ->
            forall x, In x (g m) -> In x (g (plug c m))).
  { intros g hd Hg x. apply (In_flat_plug_sub _ g hd Hg). }
  apply WellFormed_plug_gen with (m := m); auto.
  - apply (NoDup_flat_plug_inv _ nodeRefs _ nodeRefs_splitter) in H1.
    eapply NoDup_app_r. eapply Permutation_NoDup; eauto.
  - intros x Hx.
    assert (In x (nodeRefs m)).
    { eapply Permutation_in; [symmetry; exact P1|]. apply in_or_app; auto. }
    split; auto. apply H3, (Hsub _ _ nodeRefs_splitter); auto.
  - apply (NoDup_flat_plug_inv _ tabRefs _ tabRefs_splitter) in H2.
    eapply Permutation_NoDup; [symmetry; exact P2|exact H2].
  - intros x Hx.
    assert (In x (tabRefs m)) by (eapply Permutation_in; eauto).
    split; auto. apply H4, (Hsub _ _ tabRefs_splitter); auto.
  - apply (NoDup_flat_plug_inv _ getAllTabWidgets _
             getAllTabWidgets_splitter) in H5.
    eapply NoDup_app_r. eapply Permutation_NoDup; eauto.
  - intros x Hx.
    assert (In x (getAllTabWidgets m)).
    { eapply Permutation_in; [symmetry; exact P3|]. apply in_or_app; auto. }
    split; auto. apply H6, (Hsub _ _ getAllTabWidgets_splitter); auto.
Qed.

Lemma WellFormed_collapse s :
  WellFormed s -> WellFormed (_removeRedundantSplitters s) /\
  getAllTabContents (_rootInfoNode (_removeRedundantSplitters s))
  = getAllTabContents (_rootInfoNode s).
Proof.
  intros Hwf. pose proof Hwf as [H1 H2 H3 H4 H5 H6].
  unfold _removeRedundantSplitters.
  remember (_rootInfoNode s) as root eqn:E.
  destruct root as [r kids sp o|info].
  2:{ rewrite <- E. auto. }
  destruct kids as [|a [|b rest]].
  - split; [|reflexivity].
    constructor; cbn [_rootInfoNode setRoot heapCounter tabWidgetIdCounter];
      auto.
  - simpl in *. rewrite app_nil_r in *.
    split; [|reflexivity].
    constructor; cbn [_rootInfoNode setRoot heapCounter tabWidgetIdCounter];
      auto.
    + now inversion H1.
    + now inversion H3.
  - set (n := NSplitter r (a :: b :: rest) sp o) in *.
    destruct (collapse_flat nodeRefs (fun r => [r]) nodeRefs_splitter n)
      as [[Hi Hn] _].
    destruct (collapse_same tabRefs tabRefs_splitter n) as [Et _].
    destruct (collapse_same getAllTabWidgets getAllTabWidgets_splitter n)
      as [Ew _].
    destruct (collapse_same getAllTabContents getAllTabContents_splitter n)
      as [Ec _].
    split; [|exact Ec].
    constructor; cbn [_rootInfoNode setRoot heapCounter tabWidgetIdCounter];
      rewrite ?Et, ?Ew; auto.
    rewrite Forall_forall in *. intros x Hx. apply H3, Hi, Hx.
Qed.

Lemma Some_eq_inv (A : Type) (a b : A) : Some a = Some b -> a = b.
Proof. congruence. Qed.

Lemma mergePair_facts x y m :
  mergePair x y = Some m ->
  splittersOk x = true -> splittersOk y = true ->
  splittersOk m = true /\
  ((nodeRefs m = nodeRefs x /\ getAllTabWidgets m = getAllTabWidgets x /\
    exists v, y = NTabWidget v /\
      Permutation (tabRefs m) (tabRefs x ++ tabRefs y) /\
      Permutation (getAllTabContents m)
        (getAllTabContents x ++ getAllTabContents y))
   \/
   (nodeRefs m = nodeRefs y /\ getAllTabWidgets m = getAllTabWidgets y /\
    exists v, x = NTabWidget v /\
      Permutation (tabRefs m) (tabRefs x ++ tabRefs y) /\
      Permutation (getAllTabContents m)
        (getAllTabContents x ++ getAllTabContents y))).
Proof.
  intros Hm Hx Hy.
  assert (Hn : forall slots n, nodeRefs (absorb slots n) = nodeRefs n).
  { intros. apply (absorb_flat_same _ nodeRefs (fun r => [r]));
      auto using nodeRefs_splitter. }
  assert (Hw : forall slots n,
             getAllTabWidgets (absorb slots n) = getAllTabWidgets n).
  { intros. apply (absorb_flat_same _ getAllTabWidgets (fun r => []));
      auto using getAllTabWidgets_splitter. }
  assert (Ht : forall slots n, splittersOk n = true ->
             Permutation (tabRefs (absorb slots n))
                         (map ti_ref slots ++ tabRefs n)).
  { intros. apply (absorb_flat_slots _ tabRefs ti_ref);
      auto using tabRefs_splitter. }
  assert (Hc : forall slots n, splittersOk n = true ->
             Permutation (getAllTabContents (absorb slots n))
                         (map content slots ++ getAllTabContents n)).
  { intros. apply (absorb_flat_slots _ getAllTabContents content);
      auto using getAllTabContents_splitter. }
  destruct x as [rx kx spx ox|ix], y as [ry ky spy oy|iy];
    unfold mergePair in Hm; try discriminate;
    apply Some_eq_inv in Hm; subst m.
  - split; [now rewrite absorb_ok|]. left. rewrite Hn, Hw.
    repeat split. exists iy. split; [reflexivity|]. split.
    + rewrite Ht by auto. apply Permutation_app_comm.
    + rewrite Hc by auto. apply Permutation_app_comm.
  - split; [now rewrite absorb_ok|]. right. rewrite Hn, Hw.
    repeat split. exists ix. split; [reflexivity|]. split.
    + rewrite Ht by auto. reflexivity.
    + rewrite Hc by auto. reflexivity.
  - split; [now rewrite absorb_ok|]. left. rewrite Hn, Hw.
    repeat split. exists iy. split; [reflexivity|]. split.
    + rewrite Ht by auto. apply Permutation_app_comm.
    + rewrite Hc by auto. apply Permutation_app_comm.
Qed.

Lemma kids_ok_pair r a x y b sp o :
  splittersOk (NSplitter r (a ++ x :: y :: b) sp o) = true ->
  splittersOk x = true /\ splittersOk y = true /\
  forallb splittersOk a = true /\ forallb splittersOk b = true.
Proof.
  cbn [splittersOk]. rewrite andb_true_iff, forallb_app. simpl.
  rewrite !andb_true_iff. tauto.
Qed.

(** The invariant after a merge and the elimination pass. *)
Lemma merge_Inv s c r a x y b sp o m :
  Inv s ->
  _rootInfoNode s = plug c (NSplitter r (a ++ x :: y :: b) sp o) ->
  mergePair x y = Some m ->
  let s2 := _removeRedundantSplitters
              (setRoot s (plug c (NSplitter r (a ++ m :: b) sp o))) in
  Inv s2 /\
  Permutation (getAllTabContents (_rootInfoNode s2))
              (getAllTabContents (_rootInfoNode s)).
Proof.
  intros [Hwf Hok] E Hm s2.
  pose proof Hok as Hok'. rewrite E in Hok'.
  pose proof (splittersOk_plug_inv _ _ Hok') as HP.
  destruct (kids_ok_pair _ _ _ _ _ _ _ HP) as (Hx & Hy & Ha & Hb).
  destruct (mergePair_facts x y m Hm Hx Hy) as [Hmok Hcases].
  set (P' := NSplitter r (a ++ m :: b) sp o).
  assert (Hwf1 : WellFormed (bump s 0 0 (plug c P'))).
  { destruct Hcases as [(En & Ew & v & -> & Pt & _)|(En & Ew & v & -> & Pt & _)].
    - eapply WellFormed_plug_drop; [exact Hwf|exact E|..].
      + apply (flat_merge_right _ nodeRefs _ nodeRefs_splitter). exact En.
      + apply (flat_merge_slots _ tabRefs _ tabRefs_splitter). exact Pt.
      + apply (flat_merge_right _ getAllTabWidgets _
                 getAllTabWidgets_splitter). exact Ew.
    - eapply WellFormed_plug_drop; [exact Hwf|exact E|..].
      + apply (flat_merge_left _ nodeRefs _ nodeRefs_splitter). exact En.
      + apply (flat_merge_slots _ tabRefs _ tabRefs_splitter). exact Pt.
      + apply (flat_merge_left _ getAllTabWidgets _
                 getAllTabWidgets_splitter). exact Ew. }
  assert (Hnear : nearlyOk (plug c P') = true).
  { eapply nearlyOk_plug; [exact Hok'|].
    apply nearlyOk_kids.
    - destruct a; discriminate.
    - rewrite forallb_app. simpl. now rewrite Ha, Hmok, Hb. }
  destruct (WellFormed_collapse _ Hwf1) as [Hwf2 Hc2].
  subst s2.
  change (setRoot s (plug c (NSplitter r (a ++ m :: b) sp o)))
    with (bump s 0 0 (plug c P')).
  split; [split|].
  - exact Hwf2.
  - apply (_removeRedundantSplitters_ok (bump s 0 0 (plug c P'))). exact Hnear.
  - rewrite Hc2, root_bump, E. apply contents_plug.
    apply (flat_merge_slots _ getAllTabContents _ getAllTabContents_splitter).
    destruct Hcases as [(_ & _ & v & _ & _ & Pc)|(_ & _ & v & _ & _ & Pc)];
      exact Pc.
Qed.

Lemma NoDup_map_nodeRef_swap_in a x x' rest :
  nodeRef x' = nodeRef x ->
  NoDup (map nodeRef (a ++ x :: rest)) -> NoDup (map nodeRef (a ++ x' :: rest)).
Proof.
  intros E. rewrite !map_app. simpl. now rewrite E.
Qed.

Lemma at_second (A : Type) (a : list A) x y b :
  at_ (a ++ x :: y :: b) (Z.of_nat (List.length a) + 1) = Some y.
Proof.
  replace (a ++ x :: y :: b) with ((a ++ [x]) ++ y :: b)
    by (rewrite <- app_assoc; reflexivity).
  replace (Z.of_nat (List.length a) + 1)%Z
    with (Z.of_nat (List.length (a ++ [x])))
    by (rewrite length_app; simpl; lia).
  apply at_split.
Qed.

(** [closeSplitAt] on a pair of adjacent children, one of which is the tab
    group [G] of the request. *)
Lemma closeSplitAt_pair s c r a x y b sp o G :
  Inv s ->
  _rootInfoNode s = plug c (NSplitter r (a ++ x :: y :: b) sp o) ->
  x = NTabWidget G \/ (y = NTabWidget G /\ b = []) ->
  exists m,
    mergePair x y = Some m /\
    closeSplitAt s r (a ++ x :: y :: b) G
    = Returned tt
        (_removeRedundantSplitters
           (setRoot s (plug c (NSplitter r (a ++ m :: b) sp o)))).
Proof.
  intros Hinv E HG.
  pose proof Hinv as [[Hnd _ _ _ _ _] Hok].
  assert (Hkids : NoDup (map nodeRef (a ++ x :: y :: b))).
  { rewrite E in Hnd.
    apply (NoDup_flat_plug_inv _ nodeRefs _ nodeRefs_splitter) in Hnd.
    eapply NoDup_kid_refs; eauto. }
  rewrite E in Hok. apply splittersOk_plug_inv in Hok.
  destruct (kids_ok_pair _ _ _ _ _ _ _ Hok) as (Hx & Hy & _ & _).
  assert (Hindex :
    (if (indexOfRef (a ++ x :: y :: b) (tw_ref G)
         =? Z.of_nat (List.length (a ++ x :: y :: b)) - 1)%Z
     then (Z.of_nat (List.length (a ++ x :: y :: b)) - 2)%Z
     else indexOfRef (a ++ x :: y :: b) (tw_ref G))
    = Z.of_nat (List.length a)).
  { rewrite length_app. cbn [List.length].
    destruct HG as [->|[-> ->]].
    - rewrite (indexOfRef_split a (NTabWidget G)).
      + destruct (Z.eqb_spec (Z.of_nat (List.length a))
                    (Z.of_nat (List.length a + S (S (List.length b))) - 1));
          lia.
      + rewrite map_app in Hkids. intro Hi.
        apply (NoDup_app_disj _ _ _ _ Hkids Hi). simpl; auto.
    - replace (a ++ [x; NTabWidget G]) with ((a ++ [x]) ++ [NTabWidget G])
        by (rewrite <- app_assoc; reflexivity).
      rewrite (indexOfRef_split (a ++ [x]) (NTabWidget G)).
      + rewrite length_app. cbn [List.length].
        destruct (Z.eqb_spec (Z.of_nat (List.length a + 1))
                    (Z.of_nat (List.length a + 2) - 1)); lia.
      + replace (a ++ [x; NTabWidget G]) with ((a ++ [x]) ++ [NTabWidget G])
          in Hkids by (rewrite <- app_assoc; reflexivity).
        rewrite map_app in Hkids. intro Hi.
        apply (NoDup_app_disj _ _ _ _ Hkids Hi). simpl; auto. }
  unfold closeSplitAt. cbv zeta. rewrite Hindex, at_split, at_second.
  destruct x as [rx kx spx ox|lx], y as [ry ky spy oy|ry].
  - exfalso. destruct HG as [HG|[HG _]]; discriminate.
  - (* a splitter subtree, then the tab group *)
    eexists. split; [reflexivity|].
    unfold _closeTabWidgetSplitterSplit.
    destruct (absorb_first (tw_children ry) (NSplitter rx kx spx ox) Hx)
      as (D & cW & HD & _ & _).
    rewrite HD.
    rewrite (merge_two_steps _ c r a _ _ sp o _ _ E Hnd Hx D HD).
    replace (a ++ absorb (tw_children ry) (NSplitter rx kx spx ox)
               :: NTabWidget ry :: b)
      with ((a ++ [absorb (tw_children ry) (NSplitter rx kx spx ox)])
              ++ NTabWidget ry :: b)
      by (rewrite <- app_assoc; reflexivity).
    rewrite (dropNode_split _ (NTabWidget ry)).
    + rewrite <- app_assoc. reflexivity.
    + rewrite <- app_assoc. cbn [app].
      apply (NoDup_map_nodeRef_swap_in a (NSplitter rx kx spx ox)); auto.
      apply absorb_nodeRef.
  - (* the tab group, then a splitter subtree *)
    eexists. split; [reflexivity|].
    unfold _closeTabWidgetSplitterSplit.
    destruct (absorb_first (tw_children lx) (NSplitter ry ky spy oy) Hy)
      as (D & cW & HD & _ & _).
    rewrite HD.
    assert (E' : _rootInfoNode s
                 = plug c (NSplitter r ((a ++ [NTabWidget lx])
                                          ++ NSplitter ry ky spy oy :: b) sp o)).
    { rewrite <- app_assoc. exact E. }
    rewrite (merge_two_steps _ c r _ _ _ sp o _ _ E' Hnd Hy D HD).
    rewrite <- app_assoc. cbn [app].
    rewrite (dropNode_split a (NTabWidget lx)).
    + reflexivity.
    + replace (a ++ NTabWidget lx
                 :: absorb (tw_children lx) (NSplitter ry ky spy oy) :: b)
        with ((a ++ [NTabWidget lx])
                ++ absorb (tw_children lx) (NSplitter ry ky spy oy) :: b)
        by (rewrite <- app_assoc; reflexivity).
      apply (NoDup_map_nodeRef_swap_in _ (NSplitter ry ky spy oy)).
      * apply absorb_nodeRef.
      * rewrite <- app_assoc. exact Hkids.
  - (* two tab groups *)
    eexists. split; [reflexivity|].
    rewrite (merge_two_steps _ c r a _ _ sp o _ _ E Hnd Hx lx eq_refl).
    replace (a ++ absorb (tw_children ry) (NTabWidget lx)
               :: NTabWidget ry :: b)
      with ((a ++ [absorb (tw_children ry) (NTabWidget lx)])
              ++ NTabWidget ry :: b)
      by (rewrite <- app_assoc; reflexivity).
    rewrite (dropNode_split _ (NTabWidget ry)).
    + rewrite <- app_assoc. reflexivity.
    + rewrite <- app_assoc. cbn [app].
      apply (NoDup_map_nodeRef_swap_in a (NTabWidget lx)); auto.
Qed.

Lemma nth_error_first (A : Type) (a : list A) x rest :
  nth_error (a ++ x :: rest) (List.length a) = Some x.
Proof.
  rewrite nth_error_app2, Nat.sub_diag; auto.
Qed.

Lemma nth_error_second (A : Type) (a : list A) x y rest :
  nth_error (a ++ x :: y :: rest) (S (List.length a)) = Some y.
Proof.
  rewrite nth_error_app2 by lia.
  replace (S (List.length a) - List.length a) with 1 by lia. reflexivity.
Qed.

Lemma skipn_two (A : Type) (a : list A) x y rest :
  skipn (S (S (List.length a))) (a ++ x :: y :: rest) = rest.
Proof.
  replace (a ++ x :: y :: rest) with ((a ++ [x; y]) ++ rest)
    by (rewrite <- app_assoc; reflexivity).
  replace (S (S (List.length a))) with (List.length (a ++ [x; y]))
    by (rewrite length_app; simpl; lia).
  apply skipn_split.
Qed.

Lemma mergeAt_pair a x y b i :
  (i = List.length a /\ True) \/ (i = S (List.length a) /\ b = []) ->
  (i = List.length a \/ b = []) ->
  mergeAt (a ++ x :: y :: b) i
  = match mergePair x y with
    | Some m => a ++ m :: b
    | None => a ++ x :: y :: b
    end.
Proof.
  intros Hi _. unfold mergeAt.
  assert (Hj : (if S i =? List.length (a ++ x :: y :: b) then i - 1 else i)
               = List.length a).
  { rewrite length_app. cbn [List.length].
    destruct Hi as [[-> _]|[-> ->]].
    - destruct (Nat.eqb_spec (S (List.length a))
                  (List.length a + S (S (List.length b)))); lia.
    - cbn [List.length].
      destruct (Nat.eqb_spec (S (S (List.length a))) (List.length a + 2)); lia. }
  rewrite Hj, nth_error_first, nth_error_second.
  destruct (mergePair x y); [|reflexivity].
  now rewrite firstn_split, skipn_two.
Qed.

(** A tab group among two children or more has a neighbour: the next
    child, or the previous one if it is the last. *)
Lemma neighbour_of pre (G : RootInfoNode) post :
  2 <= List.length (pre ++ G :: post) ->
  exists a x y b,
    pre ++ G :: post = a ++ x :: y :: b /\
    ((x = G /\ List.length pre = List.length a) \/
     (y = G /\ b = [] /\ List.length pre = S (List.length a))).
Proof.
  intros Hlen. destruct post as [|y b].
  - destruct (exists_last (l := pre)) as (a & x & ->).
    { intros ->. simpl in Hlen. lia. }
    exists a, x, G, []. split.
    + rewrite <- app_assoc. reflexivity.
    + right. repeat split. rewrite length_app. simpl. lia.
  - exists pre, G, y, b. split; auto.
Qed.

Lemma closeSplitAt_mergeAt s c r kids sp o G pre post :
  Inv s ->
  _rootInfoNode s = plug c (NSplitter r kids sp o) ->
  kids = pre ++ NTabWidget G :: post ->
  closeSplitAt s r kids G
  = Returned tt
      (_removeRedundantSplitters
         (setRoot s (plug c (NSplitter r (mergeAt kids (List.length pre)) sp o))))
  /\ (let s2 := _removeRedundantSplitters
                  (setRoot s (plug c (NSplitter r
                     (mergeAt kids (List.length pre)) sp o))) in
      Inv s2 /\
      Permutation (getAllTabContents (_rootInfoNode s2))
                  (getAllTabContents (_rootInfoNode s))).
Proof.
  intros Hinv E Ek.
  assert (Hlen : 2 <= List.length kids).
  { destruct Hinv as [_ Hok]. rewrite E in Hok.
    apply splittersOk_plug_inv in Hok. cbn [splittersOk] in Hok.
    apply andb_true_iff in Hok as [Hl _]. now apply Nat.leb_le in Hl. }
  rewrite Ek in Hlen.
  destruct (neighbour_of pre (NTabWidget G) post Hlen)
    as (a & x & y & b & Eab & Hcase).
  rewrite Ek, Eab in *.
  assert (HG : x = NTabWidget G \/ (y = NTabWidget G /\ b = [])).
  { destruct Hcase as [[-> _]|[-> [-> _]]]; auto. }
  destruct (closeSplitAt_pair s c r a x y b sp o G Hinv E HG) as (m & Hm & Hr).
  rewrite (mergeAt_pair a x y b (List.length pre)), Hm.
  - split; [exact Hr|]. apply (merge_Inv s c r a x y b sp o m Hinv E Hm).
  - destruct Hcase as [[_ ->]|[_ [-> ->]]]; auto.
  - destruct Hcase as [[_ ->]|[_ [-> ->]]]; auto.
Qed.

Lemma rev_path_tail front p leaf tail :
  rev (map INode (front ++ [p; leaf]) ++ tail)
  = rev tail ++ INode leaf :: INode p :: rev (map INode front).
Proof.
  rewrite rev_app_distr, rev_path_two. reflexivity.
Qed.

(** [closeSplitAtTabContent] on a content whose tab group is a child of the
    splitter [NSplitter r kids sp o]. *)
Lemma closeSplitAtTabContent_under s c0 front r kids sp o G tail :
  findPathToTabContent (_rootInfoNode s) c0
  = Some (map INode (front ++ [NSplitter r kids sp o; NTabWidget G]) ++ tail) ->
  tail = [] \/ (exists ti, tail = [ITab ti]) ->
  closeSplitAtTabContent s c0 = closeSplitAt s r kids G.
Proof.
  intros Hpath Htail. unfold closeSplitAtTabContent.
  rewrite Hpath, rev_path_tail.
  destruct Htail as [->|(ti & ->)]; reflexivity.
Qed.

Lemma closeSplitAtTabContent_Inv s c0 s' :
  Inv s -> stateAfter (closeSplitAtTabContent s c0) = Some s' ->
  Inv s' /\
  Permutation (getAllTabContents (_rootInfoNode s'))
              (getAllTabContents (_rootInfoNode s)).
Proof.
  intros Hinv H.
  assert (Hsame : forall msg, s' = s \/ s' = severe s msg ->
            Inv s' /\
            Permutation (getAllTabContents (_rootInfoNode s'))
                        (getAllTabContents (_rootInfoNode s))).
  { intros msg [->| ->]; split; auto.
    eapply Inv_sameTree; eauto. apply sameTree_severe. }
  destruct (findPathToTabContent (_rootInfoNode s) c0) as [path|] eqn:E.
  2:{ unfold closeSplitAtTabContent in H. rewrite E in H.
      injection H as <-. eapply Hsame; eauto. }
  destruct (findPathToTabContent_shape _ _ _ E)
    as (nodes & info & tail & -> & Hp & Htail).
  destruct (IsPath_ends _ _ _ Hp)
    as [[-> Hroot]|(front & r & kids & sp & o & -> & Hin & Hsub)].
  - unfold closeSplitAtTabContent in H. rewrite E in H.
    rewrite <- Hroot in H.
    destruct Htail as [->|(ti & ->)]; simpl in H; injection H as <-;
      apply (Hsame EmptyString); auto.
  - rewrite (closeSplitAtTabContent_under s c0 front r kids sp o info tail E Htail)
      in H.
    destruct (Sub_plug _ _ Hsub) as (c & Ec).
    apply in_split in Hin. destruct Hin as (pre & post & Ek).
    destruct (closeSplitAt_mergeAt s c r kids sp o info pre post Hinv Ec Ek)
      as (Hr & Hi).
    rewrite Hr in H. injection H as <-. exact Hi.
Qed.


(** ** update() *)

Lemma sameConfig_refl s : sameConfig s s.
Proof. repeat split. Qed.

Lemma sameConfig_trans s1 s2 s3 :
  sameConfig s1 s2 -> sameConfig s2 s3 -> sameConfig s1 s3.
Proof.
  unfold sameConfig. intuition congruence.
Qed.

Lemma sameConfig_tick s : sameConfig s (tick s).
Proof. repeat split. Qed.

Lemma sameConfig_nextTabId s : sameConfig s (snd (_nextTabId s)).
Proof. repeat split. Qed.

Lemma fillContainers_erase s w l :
  map eraseTab (fst (fillContainers s w l)) = map eraseTab l /\
  sameConfig s (snd (fillContainers s w l)).
Proof.
  revert s. induction l as [|k l IH]; intros s; simpl.
  - split; [reflexivity|apply sameConfig_refl].
  - destruct (container k) eqn:Ek.
    + destruct (fillContainers s w l) as [rest s2] eqn:E.
      specialize (IH s). rewrite E in IH. destruct IH as [IH1 IH2].
      simpl in *. split; [now rewrite IH1|exact IH2].
    + destruct (fillContainers (tick s) w l) as [rest s2] eqn:E.
      specialize (IH (tick s)). rewrite E in IH. destruct IH as [IH1 IH2].
      simpl in *. split; [now rewrite IH1|].
      eapply sameConfig_trans; [apply sameConfig_tick|exact IH2].
Qed.

Lemma spaceDefault_config s b f cur : sameConfig s (snd (spaceDefault s b f cur)).
Proof.
  unfold spaceDefault. destruct b; [apply sameConfig_refl|].
  destruct f, cur; simpl; try apply sameConfig_refl. apply sameConfig_tick.
Qed.

Lemma _updateTabWidget_erase s info pos :
  eraseInfo (fst (_updateTabWidget s info pos)) = eraseInfo info /\
  sameConfig s (snd (_updateTabWidget s info pos)).
Proof.
  unfold _updateTabWidget.
  pose proof (spaceDefault_config s
    (match pos with TOP_LEFT | TOP_WIDE => true | _ => false end
     && isSome (_topLeftElement s))
    (_leftSpaceDefaultElementFactory s) (leftSpaceDefaultElement info)) as H1.
  destruct (spaceDefault s _ _ _) as [leftDefault s1]. simpl in H1.
  pose proof (spaceDefault_config s1
    (match pos with TOP_RIGHT | TOP_WIDE => true | _ => false end
     && isSome (_topRightElement s1))
    (_rightSpaceDefaultElementFactory s1) (rightSpaceDefaultElement info)) as H2.
  destruct (spaceDefault s1 _ _ _) as [rightDefault s2]. simpl in H2.
  pose proof (sameConfig_trans _ _ _ H1 H2) as H12.
  destruct (tw_children info) as [|k l] eqn:El.
  - destruct (_emptySplitFactory s2) as [factory|].
    + destruct (emptyTab info), (emptyTabContent info); simpl;
        (split; [unfold eraseInfo; simpl; now rewrite El|]);
        repeat (eapply sameConfig_trans;
                [|first [apply sameConfig_tick|apply sameConfig_nextTabId]]);
        exact H12.
    + simpl. split; [unfold eraseInfo; simpl; now rewrite El|exact H12].
  - pose proof (fillContainers_erase s2 (tabWidget info) (k :: l)) as [F1 F2].
    destruct (fillContainers s2 (tabWidget info) (k :: l)) as [kids s3].
    simpl in F1, F2. simpl. split.
    + unfold eraseInfo. simpl. rewrite F1, El. reflexivity.
    + eapply sameConfig_trans; eauto.
Qed.

Lemma _update_erase n :
  forall s pos,
    erase (fst (_update s n pos)) = erase n /\
    sameConfig s (snd (_update s n pos)).
Proof.
  induction n as [info|r kids sp o IH] using RootInfoNode_ind; intros s pos.
  - cbn [_update].
    pose proof (_updateTabWidget_erase s info pos) as [H1 H2].
    destruct (_updateTabWidget s info pos) as [info' s1]. simpl in *.
    split; [now rewrite H1|exact H2].
  - cbn [_update].
    set (s1 := snd (match sp with
                    | None => (Some (createElement s (clock s)), tick s)
                    | Some _ => (sp, s)
                    end)).
    assert (Hs1 : sameConfig s s1).
    { unfold s1. destruct sp; [apply sameConfig_refl|apply sameConfig_tick]. }
    destruct (match sp with
              | None => (Some (createElement s (clock s)), tick s)
              | Some _ => (sp, s)
              end) as [sp' s1'] eqn:Esp.
    simpl in s1. subst s1.
    set (len := List.length kids).
    set (loop := fix loop (l : list RootInfoNode) (i : nat) (s : SplitLayout)
           : list RootInfoNode * SplitLayout :=
           match l with
           | [] => ([], s)
           | kidInfo :: rest =>
               let newPosition :=
                 match o with
                 | VERTICAL =>
                     _computeNewPositionForVerticalSplits pos i len
                 | HORIZONTAL =>
                     _computeNewPositionForHorizontalSplits pos i len
                 end in
               let '(kidInfo', s') := _update s kidInfo newPosition in
               let '(rest', s'') := loop rest (S i) s' in
               (kidInfo' :: rest', s'')
           end).
    assert (Hloop : forall l, Forall (fun n => forall s pos,
                       erase (fst (_update s n pos)) = erase n /\
                       sameConfig s (snd (_update s n pos))) l ->
                    forall i s0,
                      map erase (fst (loop l i s0)) = map erase l /\
                      sameConfig s0 (snd (loop l i s0))).
    { clear. induction l as [|k l IHl]; intros HF i s0.
      - split; [reflexivity|apply sameConfig_refl].
      - inversion HF as [|? ? Hk Hl]; subst. cbn [loop].
        match goal with
        | |- context [_update s0 k ?p] =>
            destruct (Hk s0 p) as [E1 C1];
            destruct (_update s0 k p) as [k' s'] eqn:Ek
        end.
        simpl in E1, C1.
        destruct (IHl Hl (S i) s') as [E2 C2].
        destruct (loop l (S i) s') as [rest' s''] eqn:El.
        simpl in *. split; [now rewrite E1, E2|].
        eapply sameConfig_trans; eauto. }
    destruct (Hloop kids IH 0 s1') as [E C].
    destruct (loop kids 0 s1') as [kids' s2] eqn:El.
    simpl in *. split; [now rewrite E|].
    eapply sameConfig_trans; eauto.
Qed.

Section EraseFlat.
Variable X : Type.
Variable g : RootInfoNode -> list X.
Variable hd : Ref -> list X.
Hypothesis g_splitter : forall r kids sp o,
  g (NSplitter r kids sp o) = hd r ++ concat (map g kids).
Hypothesis g_tab : forall info,
  g (NTabWidget (eraseInfo info)) = g (NTabWidget info).

Lemma erase_flat n : g (erase n) = g n.
Proof.
  induction n as [info|r kids sp o IH] using RootInfoNode_ind.
  - apply g_tab.
  - cbn [erase]. rewrite !g_splitter. f_equal. f_equal.
    rewrite map_map. apply map_ext_in. intros k Hk.
    rewrite Forall_forall in IH. auto.
Qed.
End EraseFlat.

Lemma map_ti_ref_erase l : map ti_ref (map eraseTab l) = map ti_ref l.
Proof. rewrite map_map. reflexivity. Qed.

Lemma map_content_erase l : map content (map eraseTab l) = map content l.
Proof. rewrite map_map. reflexivity. Qed.

Lemma erase_nodeRefs n : nodeRefs (erase n) = nodeRefs n.
Proof. apply (erase_flat _ nodeRefs _ nodeRefs_splitter). reflexivity. Qed.

Lemma erase_tabRefs n : tabRefs (erase n) = tabRefs n.
Proof.
  apply (erase_flat _ tabRefs _ tabRefs_splitter).
  intros. simpl. apply map_ti_ref_erase.
Qed.

Lemma erase_widgets n : getAllTabWidgets (erase n) = getAllTabWidgets n.
Proof.
  apply (erase_flat _ getAllTabWidgets _ getAllTabWidgets_splitter). reflexivity.
Qed.

Lemma erase_contents n : getAllTabContents (erase n) = getAllTabContents n.
Proof.
  apply (erase_flat _ getAllTabContents _ getAllTabContents_splitter).
  intros. simpl. apply map_content_erase.
Qed.

Lemma erase_splittersOk n : splittersOk (erase n) = splittersOk n.
Proof.
  induction n as [info|r kids sp o IH] using RootInfoNode_ind; auto.
  cbn [erase splittersOk]. rewrite length_map. f_equal.
  rewrite Forall_forall in IH.
  induction kids as [|k kids IHk]; simpl; auto.
  rewrite IH by (simpl; auto). f_equal. apply IHk.
  intros x Hx. apply IH. simpl; auto.
Qed.

Lemma Inv_erase_eq s s' :
  erase (_rootInfoNode s') = erase (_rootInfoNode s) ->
  heapCounter s' = heapCounter s ->
  tabWidgetIdCounter s' = tabWidgetIdCounter s ->
  Inv s -> Inv s'.
Proof.
  intros E Eh Ew [[H1 H2 H3 H4 H5 H6] Hok].
  rewrite <- erase_nodeRefs in H1, H3. rewrite <- erase_tabRefs in H2, H4.
  rewrite <- erase_widgets in H5, H6. rewrite <- erase_splittersOk in Hok.
  rewrite <- E in *. rewrite <- Eh in *. rewrite <- Ew in *.
  rewrite erase_nodeRefs in H1, H3. rewrite erase_tabRefs in H2, H4.
  rewrite erase_widgets in H5, H6. rewrite erase_splittersOk in Hok.
  split; [constructor|]; auto.
Qed.

Lemma update_erase s :
  erase (_rootInfoNode (update s)) = erase (_rootInfoNode s) /\
  sameConfig s (update s).
Proof.
  unfold update.
  destruct (_update_erase (_rootInfoNode s) s TOP_WIDE) as [E C].
  destruct (_update s (_rootInfoNode s) TOP_WIDE) as [root s1].
  simpl in *. split; [exact E|]. exact C.
Qed.

Lemma update_Inv s : Inv s ->
  Inv (update s) /\
  getAllTabContents (_rootInfoNode (update s))
  = getAllTabContents (_rootInfoNode s).
Proof.
  intros Hinv. destruct (update_erase s) as [E (Eh & Ew & _)].
  split.
  - eapply Inv_erase_eq; eauto.
  - rewrite <- erase_contents, E. apply erase_contents.
Qed.


(** ** Every call preserves the invariant *)

Lemma Inv_constructor c1 c2 doc : Inv (constructor c1 c2 doc).
Proof.
  split; [|reflexivity].
  constructor; simpl; repeat constructor; simpl; auto.
Qed.

Lemma appendTab_Inv s w t c0 s' :
  Inv s -> stateAfter (appendTab s w t c0) = Some s' ->
  Inv s' /\
  (getAllTabContents (_rootInfoNode s') = getAllTabContents (_rootInfoNode s) \/
   Permutation (getAllTabContents (_rootInfoNode s'))
               (c0 :: getAllTabContents (_rootInfoNode s))).
Proof.
  intros Hinv H.
  destruct (findTabWidgetInfoByTabWidget (_rootInfoNode s) w) as [info|] eqn:E.
  - destruct (appendTab_found_Inv s w t c0 info Hinv E)
      as (s1 & c & Hr & Hi & E1 & E2).
    rewrite Hr in H. injection H as <-. split; [exact Hi|]. right.
    rewrite E1, E2, contents_setTabs, contents_tabs, map_app. simpl.
    rewrite Permutation_middle. apply Permutation_app_head.
    rewrite <- app_assoc. simpl. symmetry. apply Permutation_middle.
  - unfold appendTab in H. rewrite E in H. injection H as <-.
    split; [|left; reflexivity].
    eapply Inv_sameTree; eauto. apply sameTree_severe.
Qed.

Lemma NoDup_sub_middle (A : Type) (X Y l l' : list A) :
  NoDup (X ++ l ++ Y) -> NoDup l' -> incl l' l -> NoDup (X ++ l' ++ Y).
Proof.
  intros H Hl' Hi. apply NoDup_app_intro.
  - eapply NoDup_app_l; eauto.
  - apply NoDup_app_intro; auto.
    + eapply NoDup_app_r, NoDup_app_r; eauto.
    + intros x H1 H2. apply NoDup_app_r in H.
      apply (NoDup_app_disj _ _ _ x H); auto.
  - intros x H1 H2. apply (NoDup_app_disj _ _ _ x H H1).
    apply in_app_or in H2. apply in_or_app. destruct H2; auto.
Qed.

Lemma removeTabContent_Inv s c0 s' :
  Inv s -> stateAfter (removeTabContent s c0) = Some s' ->
  Inv s' /\
  (NoDup (getAllTabContents (_rootInfoNode s)) ->
   NoDup (getAllTabContents (_rootInfoNode s'))).
Proof.
  intros Hinv H.
  destruct (findTabWidgetInfoByTabContent (_rootInfoNode s) c0)
    as [[info oti]|] eqn:E.
  - destruct (removeTabContent_found_Inv s c0 info oti Hinv E)
      as (s1 & c & l' & Hr & Hi & E1 & E2 & El).
    rewrite Hr in H. injection H as <-. split; [exact Hi|].
    rewrite E1, E2, contents_setTabs, contents_tabs. intros Hnd.
    eapply NoDup_sub_middle; [exact Hnd| |].
    + subst l'. destruct oti; [|eapply NoDup_app_l, NoDup_app_r; eauto].
      apply NoDup_map_filter. eapply NoDup_app_l, NoDup_app_r; eauto.
    + subst l'. destruct oti; [|apply incl_refl].
      intros x Hx. apply in_map_iff in Hx. destruct Hx as (ti & <- & Hti).
      apply in_map. eapply dropTab_incl; eauto.
  - unfold removeTabContent in H. rewrite E in H. injection H as <-.
    split; [|auto].
    eapply Inv_sameTree; eauto. apply sameTree_severe.
Qed.

Lemma moveTabToTabWidget_Inv s t w idx s' :
  Inv s -> stateAfter (moveTabToTabWidget s t w idx) = Some s' ->
  Inv s' /\
  Permutation (getAllTabContents (_rootInfoNode s'))
              (getAllTabContents (_rootInfoNode s)).
Proof.
  intros Hinv H.
  destruct (findTabWidgetInfoByTab (_rootInfoNode s) t)
    as [[source oti]|] eqn:Es.
  2:{ unfold moveTabToTabWidget in H. rewrite Es in H. injection H as <-. auto. }
  destruct (findTabWidgetInfoByTabWidget (_rootInfoNode s) w)
    as [target|] eqn:Et.
  2:{ unfold moveTabToTabWidget in H. rewrite Es, Et in H.
      injection H as <-. auto. }
  destruct oti as [ti|].
  2:{ unfold moveTabToTabWidget in H. rewrite Es, Et in H. discriminate. }
  destruct (moveTabToTabWidget_found s t w idx source ti target Hinv Es Et)
    as (s1 & Hr & Hi & Hp & _).
  rewrite Hr in H. injection H as <-. auto.
Qed.

Lemma Inv_config s s' :
  _rootInfoNode s' = _rootInfoNode s -> heapCounter s' = heapCounter s ->
  tabWidgetIdCounter s' = tabWidgetIdCounter s -> Inv s -> Inv s'.
Proof.
  intros E1 E2 E3. apply Inv_sameTree. repeat split; auto.
Qed.

(** One call: the invariant, and the contents of the slots. *)
Lemma exec_Inv op s s' :
  Inv s -> exec op s = Some s' ->
  Inv s' /\
  (NoDup (getAllTabContents (_rootInfoNode s)) ->
   appendsHeldContent op s = false ->
   NoDup (getAllTabContents (_rootInfoNode s'))).
Proof.
  intros Hinv H.
  assert (Hperm : forall s',
            Inv s' /\ Permutation (getAllTabContents (_rootInfoNode s'))
                                  (getAllTabContents (_rootInfoNode s)) ->
            Inv s' /\
            (NoDup (getAllTabContents (_rootInfoNode s)) ->
             appendsHeldContent op s = false ->
             NoDup (getAllTabContents (_rootInfoNode s')))).
  { intros s0 [Hi Hp]. split; auto. intros Hnd _.
    eapply Permutation_NoDup; [symmetry; exact Hp|exact Hnd]. }
  assert (Heq : forall s',
            Inv s' /\ getAllTabContents (_rootInfoNode s')
                      = getAllTabContents (_rootInfoNode s) ->
            Inv s' /\
            (NoDup (getAllTabContents (_rootInfoNode s)) ->
             appendsHeldContent op s = false ->
             NoDup (getAllTabContents (_rootInfoNode s')))).
  { intros s0 [Hi He]. apply Hperm. rewrite He. auto. }
  destruct op; simpl in H.
  - destruct (appendTab_Inv s w t tabContent s' Hinv H) as [Hi [He|Hp]].
    + apply Heq; auto.
    + split; auto. intros Hnd Hfresh. simpl in Hfresh.
      eapply Permutation_NoDup; [symmetry; exact Hp|]. constructor; auto.
      intro Hin.
      assert (existsb (Nat.eqb tabContent)
                (getAllTabContents (_rootInfoNode s)) = true); [|congruence].
      apply existsb_exists. exists tabContent. split; auto.
      apply Nat.eqb_refl.
  - destruct (removeTabContent_Inv s tabContent s' Hinv H) as [Hi Hn]. auto.
  - apply Heq. eapply splitAfterTabWidget_Inv; eauto.
  - apply Hperm. eapply splitBeforeTabWidget_Inv; eauto.
  - apply Heq. eapply splitAfterTabContent_Inv; eauto.
  - apply Hperm. eapply moveTabToTabWidget_Inv; eauto.
  - apply Hperm. eapply closeSplitAtTabContent_Inv; eauto.
  - injection H as <-. apply Heq. apply update_Inv; auto.
  - injection H as <-. apply Heq. split; [|reflexivity].
    apply (Inv_config s); [reflexivity|reflexivity|reflexivity|exact Hinv].
  - injection H as <-. apply Heq. split; [|reflexivity].
    apply (Inv_config s); [reflexivity|reflexivity|reflexivity|exact Hinv].
  - injection H as <-. apply Heq. split; [|reflexivity].
    apply (Inv_config s); [reflexivity|reflexivity|reflexivity|exact Hinv].
  - injection H as <-. apply Heq. split; [|reflexivity].
    apply (Inv_config s); [reflexivity|reflexivity|reflexivity|exact Hinv].
  - injection H as <-. apply Heq. split; [|reflexivity].
    apply (Inv_config s); [reflexivity|reflexivity|reflexivity|exact Hinv].
  - injection H as <-. apply Heq. split; [|reflexivity].
    apply (Inv_config s); [reflexivity|reflexivity|reflexivity|exact Hinv].
Qed.

Lemma run_Inv ops : forall s s', Inv s -> run ops s = Some s' -> Inv s'.
Proof.
  induction ops as [|op ops IH]; simpl; intros s s' Hinv H.
  - now injection H as <-.
  - destruct (exec op s) as [s1|] eqn:E; [|discriminate].
    eapply IH; [|exact H]. eapply exec_Inv; eauto.
Qed.

(** C1: after every sequence of calls on a new layout, every splitter node
    of the tree has at least two children: no splitter with exactly one
    child is left behind, and the root is never a splitter with fewer than
    two children.  The sequences range over all the mutating methods, the
    four split and merge methods among them; a call that throws counts with
    the state it leaves. *)
Theorem no_redundant_splitter_after_any_calls ops c1 c2 doc s :
  run ops (constructor c1 c2 doc) = Some s ->
  splittersOk (_rootInfoNode s) = true.
Proof.
  intros H. eapply run_Inv in H; [apply H|apply Inv_constructor].
Qed.

Lemma runDistinct_NoDup ops : forall s s',
  Inv s -> NoDup (getAllTabContents (_rootInfoNode s)) ->
  runDistinct ops s = Some s' ->
  NoDup (getAllTabContents (_rootInfoNode s')).
Proof.
  induction ops as [|op ops IH]; simpl; intros s s' Hinv Hnd H.
  - now injection H as <-.
  - destruct (appendsHeldContent op s) eqn:Ea; [discriminate|].
    destruct (exec op s) as [s1|] eqn:E; [|discriminate].
    destruct (exec_Inv op s s1 Hinv E) as [Hi Hn].
    eapply IH; [exact Hi| |exact H]. auto.
Qed.

(** C9, as amended: no content element occupies two slots after any sequence
    of calls on a new layout in which no [appendTab] is given a content
    element that a slot of the tree holds at that moment. *)
Theorem contents_stay_distinct ops c1 c2 doc s :
  runDistinct ops (constructor c1 c2 doc) = Some s ->
  NoDup (getAllTabContents (_rootInfoNode s)).
Proof.
  apply runDistinct_NoDup; [apply Inv_constructor|constructor].
Qed.


(** * The properties of the specification *)

Lemma Inv_of_bool s :
  wellFormed s = true -> splittersOk (_rootInfoNode s) = true -> Inv s.
Proof.
  intros H1 H2. split; auto. now apply wellFormed_WellFormed.
Qed.

(** A concrete sequence of calls for C1: splits along both axes, by widget
    and by content, and the merges that undo them. *)
Lemma no_redundant_splitter_after_any_calls_witness :
  splittersOk
    (_rootInfoNode
       (afterCalls [OpAppendTab 1 50 60; OpAppendTab 1 51 61;
                    OpSplitAfterTabWidget 1 VERTICAL;
                    OpSplitAfterTabContent 60 HORIZONTAL;
                    OpSplitBeforeTabWidget 2 HORIZONTAL;
                    OpCloseSplitAtTabContent 61;
                    OpCloseSplitAtTabContent 60])) = true.
Proof.
  apply (no_redundant_splitter_after_any_calls
           [OpAppendTab 1 50 60; OpAppendTab 1 51 61;
            OpSplitAfterTabWidget 1 VERTICAL;
            OpSplitAfterTabContent 60 HORIZONTAL;
            OpSplitBeforeTabWidget 2 HORIZONTAL;
            OpCloseSplitAtTabContent 61;
            OpCloseSplitAtTabContent 60] 0 0 sampleDocument).
  vm_compute. reflexivity.
Defined.

(** ** C2: splitAfterTabWidget *)

(** C2: for a tab widget of the tree, [splitAfterTabWidget] returns the tab
    widget of a new, empty tab group, which stands right after the target:
    as its next sibling when the parent splitter has the requested axis
    (the splitter is the same node, with one child more), and otherwise,
    or when the target is the root, as the second child of a new splitter
    of that axis which holds the target first and takes its place. *)
Theorem splitAfterTabWidget_places_new_group_after s w axis target :
  wellFormed s = true ->
  findTabWidgetInfoByTabWidget (_rootInfoNode s) w = Some target ->
  exists s' newGroup,
    splitAfterTabWidget s w axis = Returned (Some (tabWidget newGroup)) s' /\
    tw_children newGroup = [] /\
    ~ In (tabWidget newGroup) (getAllTabWidgets (_rootInfoNode s)) /\
    SplitAfter (NTabWidget target) (NTabWidget newGroup) axis
      (_rootInfoNode s) (_rootInfoNode s').
Proof.
  intros Hwf Hfind. apply wellFormed_WellFormed in Hwf.
  pose proof Hwf as [Hnd _ _ _ _ Hle].
  set (N := mkTabWidgetInfoNode (heapCounter s) []
              (S (tabWidgetIdCounter s)) None None None None None).
  assert (Hfresh : ~ In (tabWidget N) (getAllTabWidgets (_rootInfoNode s))).
  { intro Hin. rewrite Forall_forall in Hle. specialize (Hle _ Hin).
    simpl in Hle. lia. }
  destruct (splitAfterTabWidget_shape s w axis target Hnd Hfind) as
    [[E Hr]|(c & r & pre & post & sp & o & E & [[-> Hr]|[Hne Hr]])];
    rewrite Hr; eexists _, N; (split; [reflexivity|]);
    (split; [reflexivity|]); (split; [exact Hfresh|]);
    rewrite root_bump, E.
  - apply SplitAfter_root.
  - apply SplitAfter_in.
    eapply Replace_SplitAfterIn; [apply plug_Replace|apply SplitAfter_sibling].
  - apply SplitAfter_in.
    eapply Replace_SplitAfterIn; [apply plug_Replace|].
    apply SplitAfter_nested. exact Hne.
Qed.

(** C2 at a layout with a vertical root splitter over the tab widgets 1 and
    2: the target, tab widget 1, has a parent of the requested axis. *)
Lemma splitAfterTabWidget_places_new_group_after_witness :
  exists s' newGroup,
    splitAfterTabWidget sampleSplitOnce 1 VERTICAL
      = Returned (Some (tabWidget newGroup)) s' /\
    tw_children newGroup = [] /\
    ~ In (tabWidget newGroup)
         (getAllTabWidgets (_rootInfoNode sampleSplitOnce)) /\
    SplitAfter
      (NTabWidget (mkTabWidgetInfoNode 0 [mkTabInfo 1 50 60 None] 1
                     None None None None None))
      (NTabWidget newGroup) VERTICAL
      (_rootInfoNode sampleSplitOnce) (_rootInfoNode s').
Proof.
  apply (splitAfterTabWidget_places_new_group_after sampleSplitOnce 1
           VERTICAL
           (mkTabWidgetInfoNode 0 [mkTabInfo 1 50 60 None] 1
              None None None None None));
    vm_compute; reflexivity.
Defined.

(** The example of the specification: on the single root group G0 (tab
    widget 1), two successive [splitAfterTabWidget] along the vertical axis
    give a root splitter over G0, G2 (tab widget 3) and G1 (tab widget 2). *)
Example splitAfterTabWidget_twice :
  option_map
    (fun s => match _rootInfoNode s with
              | NSplitter _ kids _ o => (map getAllTabWidgets kids, o)
              | NTabWidget _ => ([], HORIZONTAL)
              end)
    (run [OpAppendTab 1 50 60; OpSplitAfterTabWidget 1 VERTICAL;
          OpSplitAfterTabWidget 1 VERTICAL]
       (constructor 0 0 sampleDocument))
  = Some ([[1]; [3]; [2]], VERTICAL).
Proof. vm_compute. reflexivity. Qed.
